(** * Zotero publications fetcher: a shallow embedding of
    [fetch_zotero_publications.py] and the properties of its helpers,
    its paginated fetch loop and its record processor.

    Conventions of the embedding.

    - A Python [str] is the list of its code points.  The Unicode
      tables behind the regular expression classes [\d] and [\w],
      behind [int], [str.lower] and [str.strip] are not written out:
      they are the fields of the class [Text.Unicode], together with
      the few facts about them that the proofs use, and every statement
      holds for every instance of the class.  [Text.basic] is the
      instance that knows ASCII only and [Text.wider] one that knows a
      few characters more; they serve where a statement is tried on a
      concrete input.
    - A value decoded from JSON is a [pyval]; an operation that Python
      rejects at run time returns [Raise].
      JSON numbers are modelled as integers.
    - Loops are folds over the data they iterate on, with the mutable
      locals gathered in a record.  The endless loop of the fetcher is
      driven by the script of the responses of the remote end.
    - The arguments of the command line and the URL made from them are
      Rocq strings: they are compared and concatenated, never looked
      into. *)

From stdpp Require Import base strings gmap list sorting.
From Stdlib Require Import ZArith NArith Ascii Lia.

Local Open Scope Z_scope.
#[local] Arguments String.append !s1 s2 : simpl nomatch.

(** A character is a code point, a [str] a list of characters. *)
Abbreviation char := N (only parsing).
Abbreviation str := (list N) (only parsing).

(** The [str] of an ASCII literal. *)
Fixpoint lit (s : string) : str :=
  match s with
  | EmptyString => []
  | String c s' => N_of_ascii c :: lit s'
  end.
Arguments lit : simpl never.

(* ================================================================== *)
(** * Text primitives *)
(* ================================================================== *)

Module Text.

Definition in_range (lo hi : N) (c : char) : bool :=
  ((lo <=? c) && (c <=? hi))%N.

Definition is_ascii (c : char) : bool := (c <? 128)%N.

(** The classes and the case of the ASCII characters. *)
Module Basic.

Definition is_digit (c : char) : bool := in_range 48 57 c.

Definition is_upper (c : char) : bool := in_range 65 90 c.

Definition is_lower (c : char) : bool := in_range 97 122 c.

(** Letters, digits and the underscore. *)
Definition is_word (c : char) : bool :=
  is_digit c || is_upper c || is_lower c || (c =? 95)%N.

(** TAB, LF, VT, FF, CR, the four separators FS, GS, RS, US and the
    space. *)
Definition is_space (c : char) : bool :=
  in_range 9 13 c || in_range 28 32 c.

Definition lower_char (c : char) : char :=
  if is_upper c then (c + 32)%N else c.

Definition digit_value (c : char) : Z := Z.of_N c - 48.

End Basic.

(** What the program takes from the Unicode tables of Python:
    - [is_digit]: the class [\d] of a regular expression on a [str],
      the decimal digits ([str.isdecimal]);
    - [is_word]: the class [\w], the alphanumeric characters and the
      underscore;
    - [is_space]: the characters [str.strip] removes ([str.isspace]);
    - [digit_value]: the value [int] gives a decimal digit;
    - [lower]: [str.lower].
    The facts: a decimal digit is a word character and has a value from
    0 to 9; on ASCII the tables are the ones of [Basic]; lower-casing
    leaves no string empty but the empty one, and lower-casing twice is
    lower-casing once. *)
Class Unicode : Type := {
  is_digit : char -> bool;
  is_word : char -> bool;
  is_space : char -> bool;
  digit_value : char -> Z;
  lower : str -> str;
  digit_is_word : forall c, is_digit c = true -> is_word c = true;
  digit_value_range : forall c, is_digit c = true -> 0 <= digit_value c <= 9;
  ascii_is_digit : forall c, is_ascii c = true -> is_digit c = Basic.is_digit c;
  ascii_is_word : forall c, is_ascii c = true -> is_word c = Basic.is_word c;
  ascii_is_space : forall c, is_ascii c = true -> is_space c = Basic.is_space c;
  ascii_digit_value :
    forall c, Basic.is_digit c = true -> digit_value c = Basic.digit_value c;
  ascii_lower :
    forall s, forallb is_ascii s = true -> lower s = map Basic.lower_char s;
  lower_nil : forall s, lower s = [] -> s = [];
  lower_idemp : forall s, lower (lower s) = lower s
}.

Definition is_empty (s : str) : bool :=
  match s with [] => true | _ :: _ => false end.

(** [s.startswith(p)] *)
Fixpoint starts_with (p s : str) : bool :=
  match p, s with
  | [], _ => true
  | a :: p', b :: s' => bool_decide (a = b) && starts_with p' s'
  | _ :: _, [] => false
  end.

(** [needle in hay] on strings *)
Fixpoint contains (needle hay : str) : bool :=
  starts_with needle hay ||
  match hay with
  | [] => false
  | _ :: hay' => contains needle hay'
  end.

(** [sep.join(l)] *)
Fixpoint join (sep : str) (l : list str) : str :=
  match l with
  | [] => []
  | [x] => x
  | x :: l' => x ++ sep ++ join sep l'
  end.

Definition head (s : str) : option char :=
  match s with [] => None | c :: _ => Some c end.

Fixpoint last (prev : option char) (s : str) : option char :=
  match s with
  | [] => prev
  | c :: s' => last (Some c) s'
  end.

Section Tables.
Context {U : Unicode}.

(** [str.lstrip] *)
Fixpoint lstrip (s : str) : str :=
  match s with
  | [] => []
  | c :: s' => if is_space c then lstrip s' else s
  end.

(** [str.rstrip] *)
Fixpoint rstrip (s : str) : str :=
  match s with
  | [] => []
  | c :: s' =>
      let r := rstrip s' in
      if is_space c && is_empty r then [] else c :: r
  end.

(** [str.strip] *)
Definition strip (s : str) : str := rstrip (lstrip s).

(** [int(s)] on a string of decimal digits *)
Fixpoint int_of_digits (acc : Z) (s : str) : Z :=
  match s with
  | [] => acc
  | c :: s' => int_of_digits (10 * acc + digit_value c) s'
  end.

Definition int (s : str) : Z := int_of_digits 0 s.

End Tables.

(** The tables that know ASCII only: no other character is in a class
    or has another case. *)
Definition basic : Unicode.
Proof.
  refine {| is_digit := fun c => is_ascii c && Basic.is_digit c;
            is_word := fun c => is_ascii c && Basic.is_word c;
            is_space := fun c => is_ascii c && Basic.is_space c;
            digit_value := Basic.digit_value;
            lower := map Basic.lower_char |}.
  - intros c [_ H]%andb_true_iff. unfold Basic.is_word.
    apply andb_true_iff in H as [H1 H2]. apply N.leb_le in H1, H2.
    unfold is_ascii. rewrite (proj2 (N.ltb_lt c 128)) by lia.
    unfold Basic.is_digit, in_range.
    now rewrite (proj2 (N.leb_le 48 c)), (proj2 (N.leb_le c 57)).
  - intros c [_ H]%andb_true_iff. unfold Basic.digit_value.
    apply andb_true_iff in H as [H1 H2]. apply N.leb_le in H1, H2. lia.
  - intros c ->. reflexivity.
  - intros c ->. reflexivity.
  - intros c ->. reflexivity.
  - reflexivity.
  - reflexivity.
  - intros [|c s]; [reflexivity | discriminate].
  - intros s. rewrite map_map. apply map_ext. intros c.
    unfold Basic.lower_char, Basic.is_upper, in_range.
    destruct ((65 <=? c)%N && (c <=? 90)%N) eqn:E; [|now rewrite E].
    apply andb_true_iff in E as [H1 H2]. apply N.leb_le in H1, H2.
    rewrite (proj2 (N.leb_gt (c + 32) 90)) by lia. now rewrite andb_false_r.
Defined.

(** The classes and the case of ASCII and of a few characters beyond
    it: the Arabic-Indic digits (U+0660 to U+0669), the letters A and a
    with macron (U+0100, U+0101), the ideographs for year, month and
    day (U+5E74, U+6708, U+65E5), the no-break space (U+00A0) and the em
    space (U+2003). *)
Module Wider.

Definition is_arabic_indic (c : char) : bool := in_range 1632 1641 c.

Definition is_digit (c : char) : bool := Basic.is_digit c || is_arabic_indic c.

Definition is_word (c : char) : bool :=
  Basic.is_word c || is_arabic_indic c || in_range 256 257 c
  || (c =? 24180)%N || (c =? 26376)%N || (c =? 26085)%N.

Definition is_space (c : char) : bool :=
  Basic.is_space c || (c =? 160)%N || (c =? 8195)%N.

Definition digit_value (c : char) : Z :=
  if is_arabic_indic c then Z.of_N c - 1632 else Basic.digit_value c.

Definition lower_char (c : char) : char :=
  if (c =? 256)%N then 257%N else Basic.lower_char c.

End Wider.

Ltac compare_N :=
  repeat match goal with
         | H : context [N.leb ?a ?b] |- _ => destruct (N.leb_spec a b); try lia
         | H : context [N.ltb ?a ?b] |- _ => destruct (N.ltb_spec a b); try lia
         | H : context [N.eqb ?a ?b] |- _ => destruct (N.eqb_spec a b); try lia
         | |- context [N.leb ?a ?b] => destruct (N.leb_spec a b); try lia
         | |- context [N.ltb ?a ?b] => destruct (N.ltb_spec a b); try lia
         | |- context [N.eqb ?a ?b] => destruct (N.eqb_spec a b); try lia
         end;
  simpl in *; try discriminate; try reflexivity; try lia.

(** Tables that know these characters too; they serve where a
    statement is tried on text that is not ASCII. *)
Definition wider : Unicode.
Proof.
  refine {| is_digit := Wider.is_digit;
            is_word := Wider.is_word;
            is_space := Wider.is_space;
            digit_value := Wider.digit_value;
            lower := map Wider.lower_char |};
    unfold Wider.is_digit, Wider.is_word, Wider.is_space, Wider.digit_value,
      Wider.is_arabic_indic, Basic.is_word, Basic.is_digit, Basic.is_upper,
      Basic.is_lower, Basic.is_space, Basic.digit_value, is_ascii, in_range.
  - intros c H. compare_N.
  - intros c H. compare_N.
  - intros c H. compare_N.
  - intros c H. compare_N.
  - intros c H. compare_N.
  - intros c H. compare_N.
  - intros s H. apply map_ext_in. intros c Hc.
    rewrite forallb_forall in H. specialize (H c Hc).
    unfold Wider.lower_char. compare_N.
  - intros [|c s]; [reflexivity | discriminate].
  - intros s. rewrite map_map. apply map_ext. intros c.
    unfold Wider.lower_char, Basic.lower_char, Basic.is_upper, in_range.
    compare_N.
Defined.

End Text.

(* ================================================================== *)
(** * The regular expression [\b\d{4}\b] *)
(* ================================================================== *)

Module Regex.
Import Text.

Section Tables.
Context {U : Unicode}.

Definition word_at (o : option char) : bool :=
  match o with Some c => is_word c | None => false end.

(** [\b] between two neighbouring positions: exactly one side is a word
    character; beyond either end of the string there is none. *)
Definition boundary (before after : option char) : bool :=
  xorb (word_at before) (word_at after).

(** The pattern anchored at the start of [s], [prev] being the character
    just before it. *)
Definition match_here (prev : option char) (s : str) : option str :=
  match s with
  | d1 :: d2 :: d3 :: d4 :: rest =>
      if boundary prev (Some d1)
         && is_digit d1 && is_digit d2 && is_digit d3 && is_digit d4
         && boundary (Some d4) (head rest)
      then Some [d1; d2; d3; d4]
      else None
  | _ => None
  end.

(** [re.search]: the match at the leftmost position where there is one. *)
Fixpoint search (prev : option char) (s : str) : option str :=
  match match_here prev s with
  | Some m => Some m
  | None =>
      match s with
      | [] => None
      | c :: s' => search (Some c) s'
      end
  end.

Definition re_search_year (s : str) : option str := search None s.

End Tables.

End Regex.

(* ================================================================== *)
(** * Values decoded from JSON and the exceptions of dynamic typing *)
(* ================================================================== *)

#[warnings="-register-all"]
Inductive pyval : Type :=
  | PNone
  | PBool (b : bool)
  | PInt (n : Z)
  | PStr (s : str)
  | PList (l : list pyval)
  | PDict (d : list (str * pyval)).

Inductive exn : Type :=
  | AttributeError
  | TypeError
  | ValueError
  | OverflowError
  | OSError.

Inductive result (A : Type) : Type :=
  | Ok (a : A)
  | Raise (e : exn).
Arguments Ok {A} a.
Arguments Raise {A} e.

Definition bind {A B : Type} (r : result A) (k : A -> result B) : result B :=
  match r with
  | Ok a => k a
  | Raise e => Raise e
  end.

Notation "x <- r ;; k" := (bind r (fun x => k))
  (at level 100, r at next level, right associativity).

(** Truth value of a Python object ([if not v]). *)
Definition truthy (v : pyval) : bool :=
  match v with
  | PNone => false
  | PBool b => b
  | PInt n => negb (n =? 0)
  | PStr s => negb (Text.is_empty s)
  | PList l => match l with [] => false | _ => true end
  | PDict d => match d with [] => false | _ => true end
  end.

(** A dict is the list of its items, in insertion order; a key is looked
    up at its first item (a decoded JSON object has each key once). *)
Fixpoint assoc (k : str) (d : list (str * pyval)) : option pyval :=
  match d with
  | [] => None
  | (k', v) :: d' => if bool_decide (k' = k) then Some v else assoc k d'
  end.

(** [obj.get(key, default)]: only a dict has the method. *)
Definition py_get (obj : pyval) (key : str) (default : pyval) : result pyval :=
  match obj with
  | PDict d => Ok (match assoc key d with Some v => v | None => default end)
  | _ => Raise AttributeError
  end.

(** [obj.strip()]: only a str has the method. *)
Definition py_strip {U : Text.Unicode} (obj : pyval) : result str :=
  match obj with
  | PStr s => Ok (Text.strip s)
  | _ => Raise AttributeError
  end.

Fixpoint chars (s : str) : list pyval :=
  match s with
  | [] => []
  | c :: s' => PStr [c] :: chars s'
  end.

(** [for x in obj]: the elements of a list, the characters of a str, the
    keys of a dict; nothing else is iterable. *)
Definition py_iter (obj : pyval) : result (list pyval) :=
  match obj with
  | PList l => Ok l
  | PStr s => Ok (chars s)
  | PDict d => Ok (map (fun kv => PStr (fst kv)) d)
  | _ => Raise TypeError
  end.

(** [x or None] on a string *)
Definition or_None (s : str) : option str :=
  if Text.is_empty s then None else Some s.

(* ================================================================== *)
(** * Helper functions *)
(* ================================================================== *)

Section Helpers.
Context {U : Text.Unicode}.

(** [str(v)] for a value that is not already a str (an int, a bool, a
    list or a dict reaching the date field).  Its text is not modelled:
    every statement below holds whatever it is. *)
Variable str_of_other : pyval -> str.

Definition py_str (v : pyval) : str :=
  match v with
  | PStr s => s
  | _ => str_of_other v
  end.

Definition extract_year (date_str : pyval) : option Z :=
  if negb (truthy date_str) then None
  else
    match Regex.re_search_year (py_str date_str) with
    | Some m => Some (Text.int m)
    | None => None
    end.

End Helpers.

(** The keyword of the Hawaiian group that is not ASCII: "papah", a
    with macron (U+0101), "naumoku", a with macron, "kea". *)
Definition papahanaumokuakea : str :=
  lit "papah" ++ [257%N] ++ lit "naumoku" ++ [257%N] ++ lit "kea".

(** [any(area in title_lower for area in areas)] *)
Definition any_in (areas : list str) (title_lower : str) : bool :=
  existsb (fun area => Text.contains area title_lower) areas.

Definition assign_region {U : Text.Unicode} (title : str) : str :=
  if Text.is_empty title then lit "Unknown"
  else
    let title_lower := Text.lower title in
    if any_in [lit "hawai"; lit "hawaii"; lit "kahekili"; lit "maui";
               lit "ahu"; lit "northwestern"; papahanaumokuakea;
               lit "kauai"; lit "oahu"; lit "big island"] title_lower
    then lit "Hawaiian Archipelago"
    else if any_in [lit "samoa"; lit "aua"; lit "swains";
                    lit "american samoa"] title_lower
    then lit "American Samoa"
    else if any_in [lit "guam"; lit "mariana"; lit "saipan"; lit "tinian";
                    lit "rota"] title_lower
    then lit "Mariana Archipelago"
    else if any_in [lit "wake"; lit "baker"; lit "howland"; lit "jarvis";
                    lit "palmyra"; lit "kingman"; lit "johnston";
                    lit "jarvisisland"] title_lower
    then lit "Pacific Remote Island Areas"
    else if Text.contains (lit "pacific") title_lower
    then lit "Pacific-wide"
    else lit "Unknown".

Section Creators.
Context {U : Text.Unicode}.

(** The body of the loop of [clean_creators], [names] being the list it
    appends to. *)
Definition creator_step (names : list str) (creator : pyval)
  : result (list str) :=
  f <- py_get creator (lit "firstName") (PStr []) ;;
  first <- py_strip f ;;
  l <- py_get creator (lit "lastName") (PStr []) ;;
  last <- py_strip l ;;
  if negb (Text.is_empty first) || negb (Text.is_empty last)
  then Ok (names ++ [Text.strip (first ++ lit " " ++ last)])
  else Ok names.

Fixpoint creators_loop (names : list str) (creators : list pyval)
  : result (list str) :=
  match creators with
  | [] => Ok names
  | creator :: rest =>
      names' <- creator_step names creator ;;
      creators_loop names' rest
  end.

Definition clean_creators (creators : pyval) : result str :=
  if negb (truthy creators) then Ok []
  else
    elems <- py_iter creators ;;
    names <- creators_loop [] elems ;;
    Ok (Text.join (lit "; ") names).

End Creators.

(* ================================================================== *)
(** * API functions: the paginated fetch loop *)
(* ================================================================== *)

Module Fetch.

(** What one [requests.get] ... [response.json()] sequence comes to.
    [RequestException] stands for every failure raised as a
    [requests.exceptions.RequestException], which the loop catches (no
    connection, time-out, a status [raise_for_status] rejects).  A
    [Page] carries the decoded body and the [Backoff] header: [None]
    when the header is missing, [Some None] when [int] rejects its
    text, [Some (Some n)] when [int] reads [n]. *)
Inductive response : Type :=
  | RequestException
  | Page (items : pyval) (backoff : option (option Z)).

(** Durations handed to [time.sleep]. *)
Inductive delay : Type :=
  | HalfSecond
  | Seconds (n : Z).

Inductive event : Type :=
  | Get (start : Z)
  | Sleep (d : delay).

(** The locals of [fetch_all_items] that live across iterations. *)
Record state : Type := {
  all_items : list pyval;
  start : Z;
  retry_count : Z
}.

Definition max_retries : Z := 3.

Inductive outcome : Type :=
  | Continue (st : state) (d : delay)
  | Break (items : list pyval)
  | Uncaught (e : exn).

Section Loop.

(** [time.sleep(n)] on a whole number of seconds that is not negative:
    the exception it raises when the clock of the platform cannot hold
    the duration (OverflowError, OSError; from which duration on depends
    on the platform), [None] when it sleeps.  The delays the program
    itself chooses (half a second, 2 and 4 seconds) are slept. *)
Variable sleep_error : Z -> option exn.

(** One turn of the [while True] loop, given what the request came to. *)
Definition iteration (batch_size : Z) (st : state) (r : response) : outcome :=
  match r with
  | Page items backoff =>
      if negb (truthy items) then Break (all_items st)
      else
        match py_iter items with
        | Raise e => Uncaught e
        | Ok elems =>
            let st' := {| all_items := all_items st ++ elems;
                          start := start st + batch_size;
                          retry_count := 0 |} in
            match backoff with
            | Some None => Uncaught ValueError
            | Some (Some backoff_seconds) =>
                if backoff_seconds <? 0 then Uncaught ValueError
                else
                  match sleep_error backoff_seconds with
                  | Some e => Uncaught e
                  | None => Continue st' (Seconds backoff_seconds)
                  end
            | None => Continue st' HalfSecond
            end
        end
  | RequestException =>
      let retry_count' := retry_count st + 1 in
      if retry_count' >=? max_retries then Break (all_items st)
      else Continue {| all_items := all_items st;
                       start := start st;
                       retry_count := retry_count' |}
                    (Seconds (2 ^ retry_count'))
  end.

(** How a run ends: the function returns, an exception leaves it, or
    the script is used up while the loop still asks for a page. *)
Inductive run : Type :=
  | Returned (items : list pyval)
  | Raised (e : exn)
  | Waiting (st : state).

Fixpoint loop (batch_size : Z) (st : state) (responses : list response)
  : run * list event :=
  match responses with
  | [] => (Waiting st, [])
  | r :: responses' =>
      match iteration batch_size st r with
      | Continue st' d =>
          let (res, trace) := loop batch_size st' responses' in
          (res, Get (start st) :: Sleep d :: trace)
      | Break items => (Returned items, [Get (start st)])
      | Uncaught e => (Raised e, [Get (start st)])
      end
  end.

Definition initial : state :=
  {| all_items := []; start := 0; retry_count := 0 |}.

Definition fetch_all_items (batch_size : Z) (responses : list response)
  : run * list event :=
  loop batch_size initial responses.

End Loop.

(** [time.sleep] where the duration is held as nanoseconds in a signed
    64-bit integer: OverflowError when it does not fit.  (A system may
    reject shorter durations as well, with OSError; that is another
    [sleep_error].) *)
Definition sleep_error_64 (n : Z) : option exn :=
  if 2 ^ 63 <=? n * 10 ^ 9 then Some OverflowError else None.

End Fetch.

(* ================================================================== *)
(** * Processing functions *)
(* ================================================================== *)

Module Pub.

(** The dict built for one publication, one field per key. *)
Record t : Type := {
  title : str;
  creators : str;
  year : option Z;
  doi : option str;
  issn : option str;
  url : option str;
  region : str;
  item_type : pyval;
  publication_title : option str
}.

End Pub.

(** [x["year"] or 0] *)
Definition sort_key (x : Pub.t) : Z :=
  match Pub.year x with
  | Some y => if y =? 0 then 0 else y
  | None => 0
  end.

(** [list.sort(key=key, reverse=True)].  Python's sort is stable, also
    with [reverse=True]: elements whose keys are equal keep the order
    they had.  Inserting from the right, each element in front of the
    first one whose key is not greater, builds that arrangement
    ([sort_desc_unique] below shows there is no other). *)
Fixpoint insert_desc {A : Type} (key : A -> Z) (x : A) (l : list A) : list A :=
  match l with
  | [] => [x]
  | y :: l' => if key x <? key y then y :: insert_desc key x l' else x :: l
  end.

Definition sort_desc {A : Type} (key : A -> Z) (l : list A) : list A :=
  foldr (insert_desc key) [] l.

(** The figures of the "Processing Results" lines. *)
Record report : Type := {
  successfully_processed : Z;
  errors_encountered : Z;
  duplicates_removed : Z
}.

(** The locals of [process_publications] that live across iterations. *)
Record pstate : Type := {
  filtered_publications : list Pub.t;
  duplicate_checker : gset str;
  errors : Z
}.

Definition pinitial : pstate :=
  {| filtered_publications := []; duplicate_checker := ∅; errors := 0 |}.

Section Processing.
Context {U : Text.Unicode}.

(** The first statements of the [try] block: the nested data and the
    trimmed title. *)
Definition entry_title (entry : pyval) : result (pyval * str) :=
  data <- py_get entry (lit "data") (PDict []) ;;
  t <- py_get data (lit "title") (PStr []) ;;
  title <- py_strip t ;;
  Ok (data, title).

Variable str_of_other : pyval -> str.

(** The dict display that builds the publication record. *)
Definition build_pub (data : pyval) (title : str) : result Pub.t :=
  c <- py_get data (lit "creators") (PList []) ;;
  creators <- clean_creators c ;;
  d <- py_get data (lit "date") (PStr []) ;;
  v_doi <- py_get data (lit "DOI") (PStr []) ;;
  doi <- py_strip v_doi ;;
  v_issn <- py_get data (lit "ISSN") (PStr []) ;;
  issn <- py_strip v_issn ;;
  v_url <- py_get data (lit "url") (PStr []) ;;
  url <- py_strip v_url ;;
  item_type <- py_get data (lit "itemType") (PStr []) ;;
  v_pt <- py_get data (lit "publicationTitle") (PStr []) ;;
  publication_title <- py_strip v_pt ;;
  Ok {| Pub.title := title;
        Pub.creators := creators;
        Pub.year := extract_year str_of_other d;
        Pub.doi := or_None doi;
        Pub.issn := or_None issn;
        Pub.url := or_None url;
        Pub.region := assign_region title;
        Pub.item_type := item_type;
        Pub.publication_title := or_None publication_title |}.

(** The body of the [for entry in all_items] loop with its [try] and
    [except Exception]. *)
Definition process_entry (st : pstate) (entry : pyval) : pstate :=
  match entry_title entry with
  | Raise _ =>
      {| filtered_publications := filtered_publications st;
         duplicate_checker := duplicate_checker st;
         errors := errors st + 1 |}
  | Ok (data, title) =>
      if Text.is_empty title then st
      else if bool_decide (title ∈ duplicate_checker st) then st
      else
        let seen := {[ title ]} ∪ duplicate_checker st in
        match build_pub data title with
        | Ok pub =>
            {| filtered_publications := filtered_publications st ++ [pub];
               duplicate_checker := seen;
               errors := errors st |}
        | Raise _ =>
            {| filtered_publications := filtered_publications st;
               duplicate_checker := seen;
               errors := errors st + 1 |}
        end
  end.

Definition process_loop (all_items : list pyval) : pstate :=
  foldl process_entry pinitial all_items.

Definition process_publications (all_items : list pyval) : list Pub.t * report :=
  let st := process_loop all_items in
  let sorted := sort_desc sort_key (filtered_publications st) in
  (sorted,
   {| successfully_processed := Z.of_nat (length sorted);
      errors_encountered := errors st;
      duplicates_removed :=
        Z.of_nat (length all_items) - Z.of_nat (length sorted) - errors st |}).

End Processing.

(** [regions[region] = regions.get(region, 0) + 1] *)
Definition count_region (regions : gmap str Z) (pub : Pub.t) : gmap str Z :=
  <[ Pub.region pub := default 0 (regions !! Pub.region pub) + 1 ]> regions.

(** The dict [regions] that [process_publications] fills from the sorted
    list before it prints the distribution. *)
Definition region_distribution (filtered_publications : list Pub.t)
  : gmap str Z :=
  foldl count_region ∅ filtered_publications.

(* ================================================================== *)
(** * Main function *)
(* ================================================================== *)

Module Main.

(** The parsed arguments; each one is [None] when neither the command
    line nor the environment gives it. *)
Record parsed_args : Type := {
  output_dir : string;
  api_key : option string;
  group_id : option string;
  collection_key : option string
}.

(** [if not x] on an optional string *)
Definition missing (x : option string) : bool :=
  match x with
  | None => true
  | Some EmptyString => true
  | Some (String _ _) => false
  end.

Definition text (x : option string) : string :=
  match x with
  | None => "None"
  | Some s => s
  end.

(** Where [main] stands when it reaches the call of [fetch_all_items],
    if it does. *)
Inductive progress : Type :=
  | SysExit (status : Z)
  | FetchFrom (base_url : string).

Definition main_endpoint (a : parsed_args) : progress :=
  if missing (api_key a) then SysExit 1
  else if missing (group_id a) then SysExit 1
  else if missing (collection_key a) then SysExit 1
  else if negb (missing (collection_key a))
          && negb (bool_decide (collection_key a = Some "VD8Z582Z"))
  then FetchFrom ("https://api.zotero.org/groups/" +:+ text (group_id a)
                  +:+ "/collections/" +:+ text (collection_key a) +:+ "/items")
  else FetchFrom ("https://api.zotero.org/groups/" +:+ text (group_id a)
                  +:+ "/items").

End Main.

Module MainRun.

(** [[pub['year'] for pub in filtered_publications if pub['year']]] *)
Definition years (filtered_publications : list Pub.t) : list Z :=
  omap (fun pub =>
          match Pub.year pub with
          | Some y => if y =? 0 then None else Some y
          | None => None
          end) filtered_publications.

(** The two ends of the "Years covered" line, [min(years)] and
    [max(years)], printed when [years] is not empty. *)
Definition years_covered (filtered_publications : list Pub.t) : option (Z * Z) :=
  match years filtered_publications with
  | [] => None
  | y :: ys => Some (foldl Z.min y ys, foldl Z.max y ys)
  end.

(** How far [main] gets.  [Exports pubs covered]: [export_publications]
    is called with [pubs]; once it has written the files, the summary
    with the years [covered] is printed and [main] returns 0. *)
Inductive outcome : Type :=
  | SysExit (status : Z)
  | Returns (status : Z)
  | Exports (pubs : list Pub.t) (covered : option (Z * Z))
  | Raises (e : exn)
  | Fetching.

Definition main {U : Text.Unicode} (sleep_error : Z -> option exn)
    (str_of_other : pyval -> str) (a : Main.parsed_args)
    (responses : list Fetch.response) : outcome :=
  match Main.main_endpoint a with
  | Main.SysExit status => SysExit status
  | Main.FetchFrom _ =>
      match Fetch.fetch_all_items sleep_error 100 responses with
      | (Fetch.Returned all_items, _) =>
          match all_items with
          | [] => Returns 1
          | _ :: _ =>
              let filtered_publications :=
                (process_publications str_of_other all_items).1 in
              match filtered_publications with
              | [] => Returns 1
              | _ :: _ =>
                  Exports filtered_publications
                          (years_covered filtered_publications)
              end
          end
      | (Fetch.Raised e, _) => Raises e
      | (Fetch.Waiting _, _) => Fetching
      end
  end.

End MainRun.

(* ================================================================== *)
(** * Vocabulary of the statements *)
(* ================================================================== *)

Module YearSpec.
Import Text.

(** An edge of a run: the end of the string, or a character outside the
    class [inside]. *)
Definition edge_ok (inside : char -> bool) (o : option char) : bool :=
  match o with
  | None => true
  | Some c => negb (inside c)
  end.

(** [m] is a run of four digits of [s] that starts at offset [i] and has
    an edge on both sides. *)
Definition four_digits_at {U : Unicode} (inside : char -> bool) (s : str)
    (i : nat) (m : str) : Prop :=
  exists pre post d1 d2 d3 d4,
    s = pre ++ m ++ post /\
    length pre = i /\
    m = [d1; d2; d3; d4] /\
    is_digit d1 = true /\ is_digit d2 = true /\
    is_digit d3 = true /\ is_digit d4 = true /\
    edge_ok inside (last None pre) = true /\
    edge_ok inside (head post) = true.

(** [y] is the number written by the first such run of [s]. *)
Definition first_year {U : Unicode} (inside : char -> bool) (s : str) (y : Z)
  : Prop :=
  exists i m,
    four_digits_at inside s i m /\
    (forall j m', (j < i)%nat -> ~ four_digits_at inside s j m') /\
    y = int m.

(** The end of the string, or an ASCII character. *)
Definition ascii_or_end (o : option char) : bool :=
  match o with Some c => is_ascii c | None => true end.

End YearSpec.

Module RegionSpec.

(** The five keyword groups, in the order the claim gives them. *)
Definition groups : list (str * list str) :=
  [ (lit "Hawaiian Archipelago",
     [lit "hawai"; lit "hawaii"; lit "kahekili"; lit "maui"; lit "ahu";
      lit "northwestern"; papahanaumokuakea; lit "kauai"; lit "oahu";
      lit "big island"]);
    (lit "American Samoa",
     [lit "samoa"; lit "aua"; lit "swains"; lit "american samoa"]);
    (lit "Mariana Archipelago",
     [lit "guam"; lit "mariana"; lit "saipan"; lit "tinian"; lit "rota"]);
    (lit "Pacific Remote Island Areas",
     [lit "wake"; lit "baker"; lit "howland"; lit "jarvis"; lit "palmyra";
      lit "kingman"; lit "johnston"; lit "jarvisisland"]);
    (lit "Pacific-wide", [lit "pacific"]) ].

(** A keyword of the group occurs in the text. *)
Definition matches (text : str) (g : str * list str) : Prop :=
  exists k pre post, k ∈ g.2 /\ text = pre ++ k ++ post.

(** [r] is the name of the first group that matches the lower-cased
    title, or "Unknown" when no group matches. *)
Definition classified {U : Text.Unicode} (title r : str) : Prop :=
  (exists before g after,
      groups = before ++ g :: after /\
      r = g.1 /\
      matches (Text.lower title) g /\
      forall g', g' ∈ before -> ~ matches (Text.lower title) g') \/
  (r = lit "Unknown" /\
   forall g, g ∈ groups -> ~ matches (Text.lower title) g).

End RegionSpec.

Module CreatorSpec.

(** [str.split(sep)] for a separator that is not empty: the pieces
    between the occurrences of [sep], found left to right without
    overlap.  [skip] counts the characters of a recognised separator
    still to pass over. *)
Fixpoint split_from (sep : str) (skip : nat) (s : str) : list str :=
  match s with
  | [] => [[]]
  | c :: s' =>
      match skip with
      | S k => split_from sep k s'
      | O =>
          if Text.starts_with sep s
          then [] :: split_from sep (length sep - 1) s'
          else
            match split_from sep 0 s' with
            | piece :: pieces => (c :: piece) :: pieces
            | [] => [[c]]
            end
      end
  end.

Definition split (sep s : str) : list str := split_from sep 0 s.

(** The "; "-separated segments of a formatted creator string; the empty
    string has none. *)
Definition segments (s : str) : list str :=
  if Text.is_empty s then [] else split (lit "; ") s.

(** A name field of a creator entry: the empty string when the key is
    missing, nothing when the value is not a string. *)
Definition name_field (key : str) (d : list (str * pyval)) : option str :=
  match assoc key d with
  | None => Some []
  | Some (PStr s) => Some s
  | Some _ => None
  end.

(** The first and last name of a creator entry that is a dict with
    string names. *)
Definition creator_names (creator : pyval) : option (str * str) :=
  match creator with
  | PDict d =>
      match name_field (lit "firstName") d, name_field (lit "lastName") d with
      | Some first, Some last => Some (first, last)
      | _, _ => None
      end
  | _ => None
  end.

Section Tables.
Context {U : Text.Unicode}.

(** At least one of the two names is not empty once trimmed. *)
Definition named (fl : str * str) : Prop :=
  Text.strip fl.1 <> [] \/ Text.strip fl.2 <> [].

#[global] Instance named_dec fl : Decision (named fl).
Proof. unfold named. apply _. Defined.

(** The two trimmed names joined by a space, trimmed again. *)
Definition rendered (fl : str * str) : str :=
  Text.strip (Text.strip fl.1 ++ lit " " ++ Text.strip fl.2).

End Tables.

End CreatorSpec.

Module FetchSpec.
Import Fetch.

(** The failures at the head of a script. *)
Fixpoint leading_failures (rs : list response) : Z :=
  match rs with
  | RequestException :: rs' => 1 + leading_failures rs'
  | _ => 0
  end.

(** The consecutive failures at the end of a script: those since the
    last page, or since the start. *)
Definition trailing_failures (rs : list response) : Z :=
  leading_failures (reverse rs).

(** The pages of a script. *)
Fixpoint pages (rs : list response) : Z :=
  match rs with
  | [] => 0
  | Page _ _ :: rs' => 1 + pages rs'
  | RequestException :: rs' => pages rs'
  end.

(** The records of a response. *)
Definition records (r : response) : list pyval :=
  match r with
  | Page items _ => match py_iter items with Ok elems => elems | Raise _ => [] end
  | RequestException => []
  end.

(** The records of all the pages of a script, in order. *)
Definition fetched (rs : list response) : list pyval :=
  concat (map records rs).

(** Every request of the trace is made at the offset [o]. *)
Definition requests_at (o : Z) (trace : list event) : Prop :=
  Forall (fun e => match e with Get o' => o' = o | Sleep _ => True end) trace.

Fixpoint requests (trace : list event) : nat :=
  match trace with
  | [] => 0
  | Get _ :: trace' => S (requests trace')
  | Sleep _ :: trace' => requests trace'
  end.

End FetchSpec.

Module FetchTrace.
Import Fetch.

(** The offsets of the requests of a trace, in order. *)
Fixpoint offsets (trace : list event) : list Z :=
  match trace with
  | [] => []
  | Get o :: trace' => o :: offsets trace'
  | Sleep _ :: trace' => offsets trace'
  end.

End FetchTrace.

Module SortSpec.

(** [p] stands before [q] in the list. *)
Definition before {A : Type} (l : list A) (p q : A) : Prop :=
  exists l1 l2 l3, l = l1 ++ p :: l2 ++ q :: l3.

(** Non-increasing keys. *)
Definition descending {A : Type} (key : A -> Z) (l : list A) : Prop :=
  StronglySorted (fun a b => key b <= key a) l.

(** [l'] holds the elements of [l], those of equal key in the order
    they have in [l]. *)
Definition stable {A : Type} (key : A -> Z) (l' l : list A) : Prop :=
  forall k, filter (fun x => key x = k) l' = filter (fun x => key x = k) l.

End SortSpec.

Module ProcessSpec.

(** The title of a record as the API gives it: the "title" of the
    nested "data", the empty string when a key is missing; nothing when
    the record or its data is no dict, or the title no string. *)
Definition raw_title (entry : pyval) : option str :=
  match entry with
  | PDict e =>
      match assoc (lit "data") e with
      | None => Some []
      | Some (PDict d) =>
          match assoc (lit "title") d with
          | None => Some []
          | Some (PStr s) => Some s
          | Some _ => None
          end
      | Some _ => None
      end
  | _ => None
  end.

Section Tables.
Context {U : Text.Unicode}.

(** The trimmed title of a record, when the record gives one. *)
Definition title_of (entry : pyval) : option str :=
  match entry_title entry with
  | Ok (_, title) => Some title
  | Raise _ => None
  end.

(** The index of the first record of the input with the given trimmed
    title (compared as strings, character by character). *)
Fixpoint first_index (title : str) (items : list pyval) : option nat :=
  match items with
  | [] => None
  | entry :: rest =>
      if bool_decide (title_of entry = Some title) then Some 0%nat
      else S <$> first_index title rest
  end.

(** The title of [p] occurs in the input before the title of [q] does. *)
Definition earlier (items : list pyval) (p q : Pub.t) : Prop :=
  exists a b,
    first_index (Pub.title p) items = Some a /\
    first_index (Pub.title q) items = Some b /\
    (a < b)%nat.

(** Counted on their own: the records whose title is empty after
    trimming, and the records whose title was met before. *)
Definition is_untitled (entry : pyval) : Z :=
  if bool_decide (title_of entry = Some []) then 1 else 0.

Definition is_repeat (seen : list pyval) (entry : pyval) : Z :=
  match title_of entry with
  | Some title =>
      if bool_decide (title <> [] /\ is_Some (first_index title seen))
      then 1 else 0
  | None => 0
  end.

Fixpoint untitled (items : list pyval) : Z :=
  match items with
  | [] => 0
  | entry :: rest => is_untitled entry + untitled rest
  end.

Fixpoint repeats (seen items : list pyval) : Z :=
  match items with
  | [] => 0
  | entry :: rest => is_repeat seen entry + repeats (seen ++ [entry]) rest
  end.

(** An optional field is absent, or a trimmed string that is not
    empty. *)
Definition absent_or_trimmed (o : option str) : Prop :=
  match o with
  | None => True
  | Some s => s <> [] /\ Text.strip s = s
  end.

Definition well_formed (p : Pub.t) : Prop :=
  Pub.region p = assign_region (Pub.title p) /\
  absent_or_trimmed (Pub.doi p) /\
  absent_or_trimmed (Pub.issn p) /\
  absent_or_trimmed (Pub.url p) /\
  absent_or_trimmed (Pub.publication_title p).

End Tables.

End ProcessSpec.

Module Samples.

(** A record with a title and a date. *)
Definition record (title date : string) : pyval :=
  PDict [(lit "key", PStr (lit "K"));
         (lit "data", PDict [(lit "title", PStr (lit title));
                             (lit "date", PStr (lit date))])].

(** Six records: a title met twice (the second time with another date),
    the same words in lower case, a record without a title, a record
    that is no dict, and one more title. *)
Definition items : list pyval :=
  [ record " Reef fish " "2001"; record "" "1999"; record "Reef fish" "2005";
    record "reef fish" "2001-05"; PInt 3; record "Guam corals" "2011" ].

Definition pub (title : string) (year : Z) (region : string) : Pub.t :=
  {| Pub.title := lit title; Pub.creators := []; Pub.year := Some year;
     Pub.doi := None; Pub.issn := None; Pub.url := None;
     Pub.region := lit region; Pub.item_type := PStr [];
     Pub.publication_title := None |}.

Definition args (collection_key : option string) : Main.parsed_args :=
  {| Main.output_dir := "."; Main.api_key := Some "secret";
     Main.group_id := Some "2514686"; Main.collection_key := collection_key |}.

End Samples.

Module LoopSpec.
Import ProcessSpec SortSpec.

Section Loop.
Context {U : Text.Unicode}.
Variable f : pyval -> str.

Definition with_state (pubs : list Pub.t) (seen : gset str) (errs : Z) :=
  {| filtered_publications := pubs; duplicate_checker := seen; errors := errs |}.

(** What one turn of the loop of [process_publications] does with the
    locals, by the kind of record it meets. *)
Inductive fate (st : pstate) (entry : pyval) : pstate -> Prop :=
  | Malformed :
      title_of entry = None ->
      fate st entry
        (with_state (filtered_publications st) (duplicate_checker st)
                    (errors st + 1))
  | Untitled :
      title_of entry = Some [] ->
      fate st entry st
  | Repeat title :
      title_of entry = Some title -> title <> [] ->
      title ∈ duplicate_checker st ->
      fate st entry st
  | Produced data title pub :
      entry_title entry = Ok (data, title) -> title <> [] ->
      title ∉ duplicate_checker st ->
      build_pub f data title = Ok pub ->
      fate st entry
        (with_state (filtered_publications st ++ [pub])
                    ({[ title ]} ∪ duplicate_checker st) (errors st))
  | Failed data title e :
      entry_title entry = Ok (data, title) -> title <> [] ->
      title ∉ duplicate_checker st ->
      build_pub f data title = Raise e ->
      fate st entry
        (with_state (filtered_publications st)
                    ({[ title ]} ∪ duplicate_checker st) (errors st + 1)).

(** What the locals of [process_publications] hold once the records
    [items] have been met. *)
Record invariant (items : list pyval) (st : pstate) : Prop := {
  inv_seen : forall title,
    title ∈ duplicate_checker st <->
    title <> [] /\ is_Some (first_index title items);
  inv_from : forall p,
    p ∈ filtered_publications st ->
    Pub.title p <> [] /\
    exists a entry data,
      first_index (Pub.title p) items = Some a /\
      items !! a = Some entry /\
      entry_title entry = Ok (data, Pub.title p) /\
      build_pub f data (Pub.title p) = Ok p;
  inv_order : forall p q,
    before (filtered_publications st) p q -> earlier items p q;
  inv_all : forall a entry data title p,
    first_index title items = Some a ->
    items !! a = Some entry ->
    entry_title entry = Ok (data, title) ->
    title <> [] ->
    build_pub f data title = Ok p ->
    p ∈ filtered_publications st;
  inv_count :
    Z.of_nat (length items) =
    Z.of_nat (length (filtered_publications st)) + errors st +
    untitled items + repeats [] items;
  inv_errors : 0 <= errors st
}.

End Loop.

End LoopSpec.

Module RegionNames.

(** The six values [assign_region] can return. *)
Definition names : list str :=
  [ lit "Hawaiian Archipelago"; lit "American Samoa";
    lit "Mariana Archipelago"; lit "Pacific Remote Island Areas";
    lit "Pacific-wide"; lit "Unknown" ].

(** The keyword groups without "hawaii", "oahu", "american samoa" and
    "jarvisisland". *)
Definition essential_groups : list (str * list str) :=
  [ (lit "Hawaiian Archipelago",
     [lit "hawai"; lit "kahekili"; lit "maui"; lit "ahu"; lit "northwestern";
      papahanaumokuakea; lit "kauai"; lit "big island"]);
    (lit "American Samoa", [lit "samoa"; lit "aua"; lit "swains"]);
    (lit "Mariana Archipelago",
     [lit "guam"; lit "mariana"; lit "saipan"; lit "tinian"; lit "rota"]);
    (lit "Pacific Remote Island Areas",
     [lit "wake"; lit "baker"; lit "howland"; lit "jarvis"; lit "palmyra";
      lit "kingman"; lit "johnston"]);
    (lit "Pacific-wide", [lit "pacific"]) ].

(** The name of the first group with a keyword in the text. *)
Definition first_group (gs : list (str * list str)) (text : str) : str :=
  match List.find (fun g => any_in g.2 text) gs with
  | Some g => g.1
  | None => lit "Unknown"
  end.

End RegionNames.

Module DistributionSpec.

(** The number of publications of a region. *)
Definition in_region (r : str) (pubs : list Pub.t) : Z :=
  Z.of_nat (length (filter (fun p => Pub.region p = r) pubs)).

(** The counts of a distribution over the six region names, added up. *)
Definition total (regions : gmap str Z) : Z :=
  foldr (fun r acc => default 0 (regions !! r) + acc) 0 RegionNames.names.

End DistributionSpec.

Module DigitsSpec.

(** A string of decimal digits only. *)
Fixpoint all_digits {U : Text.Unicode} (s : str) : bool :=
  match s with
  | [] => true
  | c :: s' => Text.is_digit c && all_digits s'
  end.

End DigitsSpec.

(* ================================================================== *)
(** * Properties of the text primitives *)
(* ================================================================== *)

Module TextFacts.
Import Text.

Lemma is_empty_true s : is_empty s = true <-> s = [].
Proof. destruct s; simpl; split; intros H; done. Qed.

Lemma starts_with_spec p s :
  starts_with p s = true <-> exists post, s = p ++ post.
Proof.
  revert s. induction p as [|a p IH]; intros s; simpl.
  - split; [intros _; now exists s | reflexivity].
  - destruct s as [|b s].
    + split; [discriminate | intros [post H]; discriminate].
    + rewrite andb_true_iff, bool_decide_eq_true, IH. split.
      * intros [-> [post ->]]. now exists post.
      * intros [post H]. injection H as -> ->. split; [reflexivity | now exists post].
Qed.

(** [needle in hay] holds exactly when [hay] splits around a copy of
    [needle]. *)
Lemma contains_spec needle hay :
  contains needle hay = true <-> exists pre post, hay = pre ++ needle ++ post.
Proof.
  induction hay as [|c hay IH].
  - simpl. rewrite orb_false_r, starts_with_spec. split.
    + intros [post H]. now exists [], post.
    + intros [[|c pre] [post H]]; [now exists post | discriminate].
  - cbn [contains]. rewrite orb_true_iff, starts_with_spec, IH. split.
    + intros [[post H] | [pre [post H]]].
      * now exists [], post.
      * exists (c :: pre), post. simpl. now rewrite H.
    + intros [[|c' pre] [post H]].
      * left. now exists post.
      * right. simpl in H. injection H as -> H. now exists pre, post.
Qed.

End TextFacts.

(* ================================================================== *)
(** * [extract_year] *)
(* ================================================================== *)

Module YearFacts.
Import Text Regex YearSpec TextFacts.

#[local] Arguments match_here : simpl never.

Section Tables.
Context {U : Unicode}.

(** Next to a digit, [\b] asks for the end of the string or for a
    character that is not a word character. *)
Lemma boundary_before_digit prev d :
  is_digit d = true -> boundary prev (Some d) = edge_ok is_word prev.
Proof.
  intros H. unfold boundary, edge_ok. simpl. rewrite (digit_is_word _ H).
  destruct prev; simpl; [apply xorb_true_r | reflexivity].
Qed.

Lemma boundary_after_digit d next :
  is_digit d = true -> boundary (Some d) next = edge_ok is_word next.
Proof.
  intros H. unfold boundary, edge_ok. simpl. rewrite (digit_is_word _ H).
  destruct next; reflexivity.
Qed.

Lemma match_here_spec prev s m :
  match_here prev s = Some m <->
  exists post d1 d2 d3 d4,
    s = m ++ post /\
    m = [d1; d2; d3; d4] /\
    is_digit d1 = true /\ is_digit d2 = true /\
    is_digit d3 = true /\ is_digit d4 = true /\
    edge_ok is_word prev = true /\
    edge_ok is_word (head post) = true.
Proof.
  split.
  - destruct s as [|d1 [|d2 [|d3 [|d4 rest]]]]; try discriminate.
    unfold match_here.
    destruct (boundary prev (Some d1) && _ && _ && _ && _ && _) eqn:E;
      [|discriminate].
    intros [= <-].
    repeat (apply andb_true_iff in E as [E ?]).
    rewrite boundary_before_digit in E by assumption.
    rewrite boundary_after_digit in * by assumption.
    exists rest, d1, d2, d3, d4. repeat split; assumption.
  - intros (post & d1 & d2 & d3 & d4 & -> & -> & H1 & H2 & H3 & H4 & Hp & Hn).
    unfold match_here. simpl.
    rewrite boundary_before_digit, boundary_after_digit by assumption.
    rewrite H1, H2, H3, H4, Hp, Hn. reflexivity.
Qed.

Lemma four_digits_at_match s i m :
  four_digits_at is_word s i m <->
  exists pre rest,
    s = pre ++ rest /\ length pre = i /\
    match_here (last None pre) rest = Some m.
Proof.
  split.
  - intros (pre & post & d1 & d2 & d3 & d4 & -> & Hi & Hm & H).
    exists pre, (m ++ post). split; [reflexivity|]. split; [assumption|].
    apply match_here_spec. exists post, d1, d2, d3, d4. tauto.
  - intros (pre & rest & -> & Hi & Hm).
    apply match_here_spec in Hm
      as (post & d1 & d2 & d3 & d4 & -> & Hm & H).
    exists pre, post, d1, d2, d3, d4. tauto.
Qed.

Lemma search_cons prev c s :
  search prev (c :: s) =
  match match_here prev (c :: s) with
  | Some m => Some m
  | None => search (Some c) s
  end.
Proof. reflexivity. Qed.

(** A successful search stops at the leftmost position with a match. *)
Lemma search_Some prev s m :
  search prev s = Some m ->
  exists pre rest,
    s = pre ++ rest /\
    match_here (last prev pre) rest = Some m /\
    forall pre' rest', s = pre' ++ rest' ->
      (length pre' < length pre)%nat ->
      match_here (last prev pre') rest' = None.
Proof.
  revert prev. induction s as [|c s IH]; intros prev.
  - discriminate.
  - rewrite search_cons. destruct (match_here prev (c :: s)) eqn:E.
    + intros [= ->]. exists [], (c :: s). simpl.
      split; [reflexivity|]. split; [assumption|].
      intros pre' rest' _ Hlt. lia.
    + intros H. apply IH in H as (pre & rest & -> & Hm & Hmin).
      exists (c :: pre), rest. simpl.
      split; [reflexivity|]. split; [assumption|].
      intros [|c' pre'] rest' Heq Hlt; simpl in Heq.
      * subst rest'. exact E.
      * injection Heq as -> Heq. simpl. apply Hmin; [assumption|].
        simpl in Hlt. lia.
Qed.

(** A failed search has seen every position. *)
Lemma search_None prev s :
  search prev s = None ->
  forall pre rest, s = pre ++ rest -> match_here (last prev pre) rest = None.
Proof.
  revert prev. induction s as [|c s IH]; intros prev H pre rest Heq.
  - destruct pre; [|discriminate]. simpl in Heq. subst. reflexivity.
  - rewrite search_cons in H.
    destruct (match_here prev (c :: s)) eqn:E; [discriminate|].
    destruct pre as [|c' pre]; simpl in Heq.
    + subst. exact E.
    + injection Heq as -> ->. simpl. eapply IH; eauto.
Qed.

Lemma extract_year_str f s :
  extract_year f (PStr s) =
  match search None s with Some m => Some (int m) | None => None end.
Proof. destruct s; reflexivity. Qed.

Lemma extract_year_Some f s y :
  extract_year f (PStr s) = Some y <-> first_year is_word s y.
Proof.
  rewrite extract_year_str. split.
  - destruct (search None s) as [m|] eqn:E; [|discriminate].
    intros [= <-]. apply search_Some in E as (pre & rest & -> & Hm & Hmin).
    exists (length pre), m. split; [|split; [|reflexivity]].
    + apply four_digits_at_match. now exists pre, rest.
    + intros j m' Hj Hat.
      apply four_digits_at_match in Hat as (pre' & rest' & Heq & Hlen & Hm').
      rewrite (Hmin pre' rest' Heq) in Hm'; [discriminate | lia].
  - intros (i & m & Hat & Hfirst & ->).
    apply four_digits_at_match in Hat as (pre & rest & -> & Hlen & Hm).
    destruct (search None (pre ++ rest)) as [m2|] eqn:E.
    + apply search_Some in E as (pre2 & rest2 & Heq & Hm2 & Hmin).
      destruct (lt_eq_lt_dec (length pre2) i) as [[Hlt | Heqlen] | Hgt].
      * exfalso. apply (Hfirst _ m2 Hlt).
        apply four_digits_at_match. now exists pre2, rest2.
      * destruct (app_inj_1 pre pre2 rest rest2) as [-> ->];
          [congruence | assumption |]. congruence.
      * rewrite (Hmin pre rest eq_refl) in Hm; [discriminate | lia].
    + rewrite (search_None _ _ E pre rest eq_refl) in Hm. discriminate.
Qed.

Lemma extract_year_None f s :
  extract_year f (PStr s) = None <->
  forall i m, ~ four_digits_at is_word s i m.
Proof.
  rewrite extract_year_str. split.
  - destruct (search None s) as [m|] eqn:E; [discriminate|].
    intros _ i m Hat.
    apply four_digits_at_match in Hat as (pre & rest & Heq & _ & Hm).
    rewrite (search_None _ _ E pre rest Heq) in Hm. discriminate.
  - intros Hno. destruct (search None s) as [m|] eqn:E; [|reflexivity].
    apply search_Some in E as (pre & rest & Heq & Hm & _).
    exfalso. apply (Hno (length pre) m).
    apply four_digits_at_match. now exists pre, rest.
Qed.

(** On ASCII text the tables of Unicode are the ones of ASCII: the
    pattern matches as it does with [basic]. *)
Lemma word_at_ascii o :
  ascii_or_end o = true -> word_at o = word_at (U := basic) o.
Proof.
  destruct o as [c|]; [|reflexivity]. simpl. intros H.
  now rewrite (ascii_is_word c H), H.
Qed.

Lemma is_digit_ascii c :
  is_ascii c = true -> is_digit c = is_digit (Unicode := basic) c.
Proof. intros H. simpl. now rewrite (ascii_is_digit c H), H. Qed.

Lemma match_here_ascii prev s :
  ascii_or_end prev = true -> forallb is_ascii s = true ->
  match_here prev s = match_here (U := basic) prev s.
Proof.
  intros Hp Hs. destruct s as [|d1 [|d2 [|d3 [|d4 rest]]]]; try reflexivity.
  simpl in Hs. repeat (apply andb_true_iff in Hs as [? Hs]).
  unfold match_here, boundary.
  rewrite (word_at_ascii prev Hp), (word_at_ascii (Some d1)),
    (word_at_ascii (Some d4)), (word_at_ascii (head rest)),
    (is_digit_ascii d1), (is_digit_ascii d2), (is_digit_ascii d3),
    (is_digit_ascii d4); try assumption; try reflexivity.
  destruct rest; simpl in *; [reflexivity|].
  now apply andb_true_iff in Hs as [? _].
Qed.

Lemma search_ascii prev s :
  ascii_or_end prev = true -> forallb is_ascii s = true ->
  search prev s = search (U := basic) prev s.
Proof.
  revert prev. induction s as [|c s IH]; intros prev Hp Hs.
  - reflexivity.
  - cbn [search]. rewrite (match_here_ascii prev (c :: s) Hp Hs).
    destruct (match_here (U := basic) prev (c :: s)); [reflexivity|].
    simpl in Hs. apply andb_true_iff in Hs as [Hc Hs]. now apply IH.
Qed.

Lemma int_ascii prev s m :
  match_here (U := basic) prev s = Some m -> int m = int (U := basic) m.
Proof.
  destruct s as [|d1 [|d2 [|d3 [|d4 rest]]]]; try discriminate.
  unfold match_here.
  destruct (boundary prev (Some d1) && _ && _ && _ && _ && _) eqn:E;
    [|discriminate].
  intros [= <-]. repeat (apply andb_true_iff in E as [E ?]).
  unfold int. cbn [int_of_digits].
  repeat match goal with
  | H : is_digit (Unicode := basic) ?d = true |- _ =>
      apply andb_true_iff in H as [_ H];
      rewrite (ascii_digit_value d H)
  end.
  reflexivity.
Qed.

End Tables.

Lemma search_match_here {U : Unicode} prev s m :
  search prev s = Some m -> exists prev' s', match_here prev' s' = Some m.
Proof.
  intros H. apply search_Some in H as (pre & rest & _ & H & _). eauto.
Qed.

(** [extract_year] on ASCII text does not depend on the tables. *)
Lemma extract_year_ascii {U : Unicode} f s :
  forallb is_ascii s = true ->
  extract_year f (PStr s) = extract_year (U := basic) f (PStr s).
Proof.
  intros Hs. rewrite !extract_year_str, (search_ascii None s eq_refl Hs).
  destruct (search (U := basic) None s) as [m|] eqn:E; [|reflexivity].
  apply search_match_here in E as (prev & s' & E).
  now rewrite (int_ascii _ _ _ E).
Qed.

End YearFacts.

(** C1, as the code has it: on a string, [extract_year] returns the
    number written by the leftmost run of four decimal digits that has,
    on each side, the end of the string or a character that is not a
    word character (a word character being, in Unicode, a letter or
    digit of any script or the underscore), and it returns nothing
    exactly when the string has no such run; an absent or empty input
    gives nothing; "2020-03-01" gives 2020 and "circa 1999 reprint 2005"
    gives 1999.  This holds whatever the Unicode tables are. *)
Theorem extract_year_first_word_bounded_run
    {U : Text.Unicode} (f : pyval -> str) :
  (forall s y, extract_year f (PStr s) = Some y <->
               YearSpec.first_year Text.is_word s y) /\
  (forall s, extract_year f (PStr s) = None <->
             forall i m, ~ YearSpec.four_digits_at Text.is_word s i m) /\
  extract_year f PNone = None /\
  extract_year f (PStr []) = None /\
  extract_year f (PStr (lit "2020-03-01")) = Some 2020 /\
  extract_year f (PStr (lit "circa 1999 reprint 2005")) = Some 1999.
Proof.
  split; [intros s y; apply YearFacts.extract_year_Some|].
  split; [intros s; apply YearFacts.extract_year_None|].
  split; [reflexivity|]. split; [reflexivity|].
  split; rewrite YearFacts.extract_year_ascii by reflexivity;
    reflexivity.
Qed.

(** C1, as the claim has it (the run bounded by a character that is not
    a digit), fails: in "a1999" the run 1999 stands between a letter and
    the end of the string, and nothing is returned. *)
Lemma extract_year_digit_bounded_run_fails :
  YearSpec.first_year (U := Text.basic)
    (Text.is_digit (Unicode := Text.basic)) (lit "a1999") 1999 /\
  extract_year (U := Text.basic) (fun _ => []) (PStr (lit "a1999")) = None.
Proof.
  split; [|reflexivity].
  exists 1%nat, (lit "1999"). split; [|split; [|reflexivity]].
  - exists (lit "a"), [], 49%N, 57%N, 57%N, 57%N.
    repeat split.
  - intros j m' Hj (pre & post & d1 & d2 & d3 & d4 & Heq & Hlen & -> & Hd1 & _).
    destruct pre; simpl in Hlen; [|lia].
    simpl in Heq. inversion Heq; subst. discriminate Hd1.
Qed.

(* ================================================================== *)
(** * [assign_region] *)
(* ================================================================== *)

Module RegionFacts.
Import Text TextFacts RegionSpec.

Lemma any_in_spec areas text name :
  any_in areas text = true <-> matches text (name, areas).
Proof.
  unfold any_in, matches. simpl. rewrite existsb_exists. split.
  - intros (k & Hin & Hc). apply contains_spec in Hc as (pre & post & ->).
    exists k, pre, post. split; [now apply list_elem_of_In | reflexivity].
  - intros (k & pre & post & Hin & ->). exists k.
    split; [now apply list_elem_of_In |].
    apply contains_spec. now exists pre, post.
Qed.

Lemma any_in_false areas text name :
  any_in areas text = false -> ~ matches text (name, areas).
Proof.
  intros H Hm. apply (any_in_spec areas text name) in Hm. congruence.
Qed.

Lemma contains_pacific text :
  contains (lit "pacific") text = any_in [lit "pacific"] text.
Proof. unfold any_in. cbn [existsb]. now rewrite orb_false_r. Qed.

Lemma keyword_nonempty g k : g ∈ groups -> k ∈ g.2 -> k <> [].
Proof.
  assert (H : forallb (fun g => forallb (fun k => negb (is_empty k)) g.2) groups
              = true) by reflexivity.
  intros Hg Hk ->. rewrite forallb_forall in H.
  specialize (H g (proj1 (list_elem_of_In _ _) Hg)).
  rewrite forallb_forall in H.
  now specialize (H [] (proj1 (list_elem_of_In _ _) Hk)).
Qed.

(** No keyword occurs in the empty text. *)
Lemma no_match_empty g : g ∈ groups -> ~ matches [] g.
Proof.
  intros Hg (k & pre & post & Hk & Heq).
  destruct pre; [|discriminate]. simpl in Heq.
  destruct k; [|discriminate]. now apply (keyword_nonempty g []).
Qed.

Lemma lower_empty {U : Unicode} : lower [] = [].
Proof. now rewrite ascii_lower. Qed.

Ltac no_earlier :=
  let g' := fresh "g" in
  let Hg := fresh "Hg" in
  intros g' Hg;
  repeat (apply elem_of_cons in Hg as [-> | Hg];
          [ now apply any_in_false |]);
  now apply elem_of_nil in Hg.

Lemma assign_region_classified {U : Unicode} title :
  classified title (assign_region title).
Proof.
  unfold assign_region. destruct (is_empty title) eqn:Hempty.
  - right. split; [reflexivity|].
    apply is_empty_true in Hempty as ->. rewrite lower_empty.
    exact no_match_empty.
  - cbv zeta. rewrite contains_pacific.
    destruct (any_in _ (lower title)) eqn:H1.
    { left. eexists [], _, _. split; [reflexivity|].
      split; [reflexivity|]. split; [now apply any_in_spec | no_earlier]. }
    destruct (any_in [lit "samoa"; _; _; _] (lower title)) eqn:H2.
    { left. eexists [_], _, _. split; [reflexivity|].
      split; [reflexivity|]. split; [now apply any_in_spec | no_earlier]. }
    destruct (any_in [lit "guam"; _; _; _; _] (lower title)) eqn:H3.
    { left. eexists [_; _], _, _. split; [reflexivity|].
      split; [reflexivity|]. split; [now apply any_in_spec | no_earlier]. }
    destruct (any_in (lit "wake" :: _) (lower title)) eqn:H4.
    { left. eexists [_; _; _], _, _. split; [reflexivity|].
      split; [reflexivity|]. split; [now apply any_in_spec | no_earlier]. }
    destruct (any_in [lit "pacific"] (lower title)) eqn:H5.
    { left. eexists [_; _; _; _], _, _. split; [reflexivity|].
      split; [reflexivity|]. split; [now apply any_in_spec | no_earlier]. }
    right. split; [reflexivity|]. unfold groups. no_earlier.
Qed.

(** The first element of a list with a given property is unique. *)
Lemma first_with_unique {A : Type} (P : A -> Prop) (l b1 a1 b2 a2 : list A) x1 x2 :
  l = b1 ++ x1 :: a1 -> P x1 -> (forall y, y ∈ b1 -> ~ P y) ->
  l = b2 ++ x2 :: a2 -> P x2 -> (forall y, y ∈ b2 -> ~ P y) ->
  x1 = x2.
Proof.
  revert l b2. induction b1 as [|y b1 IH]; intros l b2 -> H1 Hb1 Heq H2 Hb2.
  - destruct b2 as [|z b2]; simpl in Heq.
    + congruence.
    + injection Heq as -> _. exfalso. apply (Hb2 z); [left | assumption].
  - destruct b2 as [|z b2]; simpl in Heq.
    + injection Heq as -> _. exfalso. apply (Hb1 x2); [left | assumption].
    + injection Heq as -> Heq.
      apply (IH _ b2 eq_refl H1); [|assumption|assumption|].
      * intros w Hw. apply Hb1. now right.
      * intros w Hw. apply Hb2. now right.
Qed.

Lemma classified_unique {U : Unicode} title r1 r2 :
  classified title r1 -> classified title r2 -> r1 = r2.
Proof.
  intros [(b1 & g1 & a1 & E1 & -> & M1 & N1) | [-> N1]]
         [(b2 & g2 & a2 & E2 & -> & M2 & N2) | [-> N2]].
  - now rewrite (first_with_unique _ _ _ _ _ _ _ _ E1 M1 N1 E2 M2 N2).
  - exfalso. apply (N2 g1); [|assumption].
    rewrite E1. apply elem_of_app. right. left.
  - exfalso. apply (N1 g2); [|assumption].
    rewrite E2. apply elem_of_app. right. left.
  - reflexivity.
Qed.

(** On an ASCII title the region does not depend on the tables. *)
Lemma assign_region_ascii {U : Unicode} title :
  forallb is_ascii title = true ->
  assign_region title = assign_region (U := basic) title.
Proof. intros H. unfold assign_region. now rewrite (ascii_lower title H). Qed.

End RegionFacts.

(** C2: [assign_region] lower-cases the title and returns the name of
    the first of the five keyword groups, taken in the order Hawaiian
    Archipelago, American Samoa, Mariana Archipelago, Pacific Remote
    Island Areas, Pacific-wide, one of whose keywords occurs in it, and
    "Unknown" when none does or the title is empty; "Coral reefs of Guam
    in the Pacific" is in the Mariana Archipelago.  The lower-casing is
    the one of Unicode, whatever its tables are. *)
Theorem assign_region_first_matching_group {U : Text.Unicode} :
  (forall title r, assign_region title = r <-> RegionSpec.classified title r) /\
  assign_region [] = lit "Unknown" /\
  assign_region (lit "Coral reefs of Guam in the Pacific")
    = lit "Mariana Archipelago" /\
  assign_region (lit "Broad Pacific fisheries trends") = lit "Pacific-wide" /\
  assign_region (lit "Reef fish surveys") = lit "Unknown".
Proof.
  split.
  - intros title r. split.
    + intros <-. apply RegionFacts.assign_region_classified.
    + intros H. eapply RegionFacts.classified_unique; [|exact H].
      apply RegionFacts.assign_region_classified.
  - split; [reflexivity|].
    repeat split; rewrite RegionFacts.assign_region_ascii by reflexivity;
      vm_compute; reflexivity.
Qed.

(* ================================================================== *)
(** * [str.strip] *)
(* ================================================================== *)

Module StripFacts.
Import Text TextFacts.

Section Tables.
Context {U : Unicode}.

Lemma space_is_space : is_space 32 = true.
Proof. now rewrite ascii_is_space. Qed.

Lemma lstrip_fixed c s : is_space c = false -> lstrip (c :: s) = c :: s.
Proof. intros H. simpl. now rewrite H. Qed.

Lemma rstrip_cons_nonspace c s :
  is_space c = false -> rstrip (c :: s) = c :: rstrip s.
Proof. intros H. simpl. now rewrite H. Qed.

(** What [lstrip] leaves is empty or starts with a character that is not
    white space. *)
Lemma lstrip_head s :
  lstrip s = [] \/ exists c s', lstrip s = c :: s' /\ is_space c = false.
Proof.
  induction s as [|c s IH]; simpl; [now left|].
  destruct (is_space c) eqn:E; [assumption|]. right. now exists c, s.
Qed.

Lemma rstrip_idemp s : rstrip (rstrip s) = rstrip s.
Proof.
  induction s as [|c s IH]; [reflexivity|]. simpl.
  destruct (is_space c && is_empty (rstrip s)) eqn:E; [reflexivity|].
  simpl. now rewrite IH, E.
Qed.

Lemma lstrip_strip s : lstrip (strip s) = strip s.
Proof.
  unfold strip. destruct (lstrip_head s) as [-> | (c & s' & -> & Hc)];
    [reflexivity|].
  rewrite rstrip_cons_nonspace by assumption. now apply lstrip_fixed.
Qed.

Lemma rstrip_strip s : rstrip (strip s) = strip s.
Proof. apply rstrip_idemp. Qed.

(** Trimming twice is trimming once. *)
Lemma strip_idemp s : strip (strip s) = strip s.
Proof. unfold strip at 1. now rewrite lstrip_strip, rstrip_strip. Qed.

(** A trimmed string that is not empty starts with a character that is
    not white space. *)
Lemma strip_head s :
  strip s = [] \/ exists c s', strip s = c :: s' /\ is_space c = false.
Proof. rewrite <- lstrip_strip. apply lstrip_head. Qed.

Lemma rstrip_append_space s : rstrip (s ++ lit " ") = rstrip s.
Proof.
  change (lit " ") with [32%N].
  induction s as [|c s IH].
  - simpl. now rewrite space_is_space.
  - simpl. now rewrite IH.
Qed.

Lemma rstrip_append s t :
  rstrip t <> [] -> rstrip (s ++ t) = s ++ rstrip t.
Proof.
  intros Ht. induction s as [|c s IH]; [reflexivity|]. simpl. rewrite IH.
  destruct (is_empty (s ++ rstrip t)) eqn:E.
  - apply is_empty_true in E. destruct s; [|discriminate]. contradiction.
  - now rewrite andb_false_r.
Qed.

(** A space and a trimmed name, trimmed: the name. *)
Lemma strip_space_name b : strip (lit " " ++ strip b) = strip b.
Proof.
  unfold strip at 1. change (lit " ") with [32%N]. simpl.
  rewrite space_is_space, lstrip_strip. apply rstrip_strip.
Qed.

Lemma lstrip_append_stripped a t :
  strip a <> [] -> lstrip (strip a ++ t) = strip a ++ t.
Proof.
  intros Ha. destruct (strip_head a) as [E | (c & s' & E & Hc)];
    [contradiction|].
  rewrite E. simpl. now rewrite Hc.
Qed.

(** A trimmed name and a space, trimmed: the name. *)
Lemma strip_name_space a : strip (strip a ++ lit " ") = strip a.
Proof.
  unfold strip at 1. destruct (decide (strip a = [])) as [E | Ha].
  - rewrite E. change (lit " ") with [32%N]. simpl.
    now rewrite space_is_space.
  - rewrite lstrip_append_stripped by assumption.
    rewrite rstrip_append_space. apply rstrip_strip.
Qed.

(** Two trimmed names that are not empty, with a space between them,
    are left as they are. *)
Lemma strip_name_space_name a b :
  strip a <> [] -> strip b <> [] ->
  strip (strip a ++ lit " " ++ strip b) = strip a ++ lit " " ++ strip b.
Proof.
  intros Ha Hb. unfold strip at 1.
  rewrite lstrip_append_stripped by assumption.
  assert (Hr : rstrip (lit " " ++ strip b) = lit " " ++ strip b).
  { rewrite rstrip_append; rewrite rstrip_strip; [reflexivity | assumption]. }
  rewrite rstrip_append; rewrite Hr; [reflexivity|].
  change (lit " ") with [32%N]. discriminate.
Qed.

End Tables.

End StripFacts.

(* ================================================================== *)
(** * [clean_creators] *)
(* ================================================================== *)

Module CreatorFacts.
Import Text TextFacts StripFacts CreatorSpec.

Section Tables.
Context {U : Unicode}.

Lemma named_test first last :
  negb (is_empty (strip first)) || negb (is_empty (strip last)) =
  bool_decide (named (first, last)).
Proof.
  destruct (bool_decide (named (first, last))) eqn:E.
  - apply bool_decide_eq_true in E. unfold named in E. simpl in E.
    destruct (strip first), (strip last); simpl; try reflexivity.
    destruct E; contradiction.
  - apply bool_decide_eq_false in E. unfold named in E. simpl in E.
    destruct (strip first), (strip last); simpl; try reflexivity;
      exfalso; apply E; first [left; discriminate | right; discriminate].
Qed.

Lemma creator_step_names names creator fl :
  creator_names creator = Some fl ->
  creator_step names creator =
  Ok (if decide (named fl) then names ++ [rendered fl] else names).
Proof.
  destruct creator as [| | | | |d]; try discriminate. unfold creator_names.
  destruct (name_field (lit "firstName") d) as [first|] eqn:E1; [|discriminate].
  destruct (name_field (lit "lastName") d) as [last|] eqn:E2; [|discriminate].
  intros [= <-]. unfold creator_step.
  unfold name_field in E1, E2. unfold py_get.
  destruct (assoc (lit "firstName") d) as [[]|]; try discriminate;
    destruct (assoc (lit "lastName") d) as [[]|]; try discriminate;
    injection E1 as <-; injection E2 as <-; cbn [bind py_strip];
    rewrite named_test; case_bool_decide; case_decide;
    try reflexivity; contradiction.
Qed.

Lemma creators_loop_names creators raw :
  Forall2 (fun creator fl => creator_names creator = Some fl) creators raw ->
  forall names,
    creators_loop names creators = Ok (names ++ (rendered <$> filter named raw)).
Proof.
  induction 1 as [|creator fl creators raw Hc _ IH]; intros names; simpl.
  - now rewrite app_nil_r.
  - rewrite (creator_step_names _ _ _ Hc). cbn [bind]. rewrite IH.
    rewrite filter_cons. destruct (decide (named fl)).
    + now rewrite fmap_cons, <- app_assoc.
    + reflexivity.
Qed.

(** On a list of creator entries with string names, the result is the
    "; "-join of the rendered names of the entries that have a name. *)
Lemma clean_creators_names creators raw :
  Forall2 (fun creator fl => creator_names creator = Some fl) creators raw ->
  clean_creators (PList creators) =
  Ok (join (lit "; ") (rendered <$> filter named raw)).
Proof.
  intros H. unfold clean_creators. destruct H as [|c fl cs raw Hc H].
  - reflexivity.
  - cbn [truthy negb py_iter bind].
    rewrite (creators_loop_names (c :: cs) (fl :: raw)); [reflexivity|].
    now constructor.
Qed.

(** How a creator is rendered: a missing first name leaves the last
    name, a missing last name leaves the first name, two names are
    separated by one space. *)
Lemma rendered_cases first last :
  rendered (first, last) =
  if decide (strip first = []) then strip last
  else if decide (strip last = []) then strip first
  else strip first ++ lit " " ++ strip last.
Proof.
  unfold rendered. cbn [fst snd].
  destruct (decide (strip first = [])) as [E1 | N1].
  - rewrite E1. apply strip_space_name.
  - destruct (decide (strip last = [])) as [E2 | N2].
    + rewrite E2. apply strip_name_space.
    + now apply strip_name_space_name.
Qed.

Lemma rendered_nonempty fl : named fl -> rendered fl <> [].
Proof.
  destruct fl as [first last]. rewrite rendered_cases. unfold named. simpl.
  intros Hn. destruct (decide (strip first = [])) as [E1 | N1].
  - destruct Hn; [contradiction | assumption].
  - destruct (decide (strip last = [])); [assumption|].
    destruct (strip first); [contradiction | discriminate].
Qed.

End Tables.

(** ** Splitting a joined string *)

Lemma starts_with_sep_append c x rest :
  starts_with (lit "; ") (c :: x) = false ->
  starts_with (lit "; ") (c :: (x ++ lit "; " ++ rest)) = false.
Proof.
  change (lit "; ") with [59%N; 32%N].
  simpl. destruct (bool_decide (_ = c)); [|reflexivity]. simpl.
  destruct x as [|c' x]; simpl.
  - reflexivity.
  - destruct (bool_decide (_ = c')); [discriminate | reflexivity].
Qed.

Lemma split_no_sep x :
  contains (lit "; ") x = false -> split (lit "; ") x = [x].
Proof.
  unfold split. induction x as [|c x IH]; [reflexivity|].
  cbn [contains]. intros [Hs Hc]%orb_false_iff.
  cbn [split_from]. now rewrite Hs, (IH Hc).
Qed.

Lemma split_sep x rest :
  contains (lit "; ") x = false ->
  split (lit "; ") (x ++ lit "; " ++ rest) = x :: split (lit "; ") rest.
Proof.
  unfold split. induction x as [|c x IH].
  - intros _. destruct rest; reflexivity.
  - cbn [contains]. intros [Hs Hc]%orb_false_iff.
    change ((c :: x) ++ lit "; " ++ rest)
      with (c :: (x ++ lit "; " ++ rest)).
    cbn [split_from]. now rewrite (starts_with_sep_append _ _ _ Hs), (IH Hc).
Qed.

(** Splitting at "; " undoes joining with "; " when no joined piece
    holds a "; " of its own. *)
Lemma split_join x l :
  (forall n, n ∈ x :: l -> contains (lit "; ") n = false) ->
  split (lit "; ") (join (lit "; ") (x :: l)) = x :: l.
Proof.
  revert x. induction l as [|y l IH]; intros x Hno.
  - apply split_no_sep, Hno. left.
  - change (join (lit "; ") (x :: y :: l))
      with (x ++ lit "; " ++ join (lit "; ") (y :: l)).
    rewrite split_sep by (apply Hno; left).
    rewrite IH; [reflexivity|]. intros n Hn. apply Hno. now right.
Qed.

Lemma join_nonempty x l : x <> [] -> join (lit "; ") (x :: l) <> [].
Proof.
  intros Hx. destruct x; [contradiction|]. destruct l; discriminate.
Qed.

Lemma segments_join names :
  (forall n, n ∈ names -> n <> [] /\ contains (lit "; ") n = false) ->
  segments (join (lit "; ") names) = names.
Proof.
  destruct names as [|x l]; intros H; [reflexivity|].
  unfold segments.
  destruct (is_empty (join (lit "; ") (x :: l))) eqn:E.
  - apply is_empty_true in E. apply join_nonempty in E; [contradiction|].
    apply H. left.
  - apply split_join. intros n Hn. now apply H.
Qed.

End CreatorFacts.

(** C7, as the code has it: on a list of creator entries whose names
    are strings, [clean_creators] trims both names of every entry, drops
    the entries whose two trimmed names are empty, renders each other
    entry as its trimmed names joined by one space and trimmed (the last
    name alone when the first is missing, the first alone when the last
    is missing) and joins the rendered names with "; "; there are as
    many rendered names as entries with a name; the "; "-separated
    segments of the output are these rendered names whenever none of
    them holds a "; " itself; the empty list gives the empty string.
    Trimming removes the white space of Unicode, whatever its table
    is. *)
Theorem clean_creators_join_of_rendered_names
    {U : Text.Unicode} (creators : list pyval) (raw : list (str * str)) :
  Forall2 (fun creator fl => CreatorSpec.creator_names creator = Some fl)
    creators raw ->
  let names := CreatorSpec.rendered <$> filter CreatorSpec.named raw in
  clean_creators (PList creators) = Ok (Text.join (lit "; ") names) /\
  length names = length (filter CreatorSpec.named raw) /\
  (forall first last,
      CreatorSpec.rendered (first, last) =
      if decide (Text.strip first = []) then Text.strip last
      else if decide (Text.strip last = []) then Text.strip first
      else Text.strip first ++ lit " " ++ Text.strip last) /\
  ((forall n, n ∈ names -> Text.contains (lit "; ") n = false) ->
   CreatorSpec.segments (Text.join (lit "; ") names) = names) /\
  clean_creators (PList []) = Ok [].
Proof.
  intros H names. split; [now apply CreatorFacts.clean_creators_names|].
  split; [apply length_fmap|].
  split; [apply CreatorFacts.rendered_cases|].
  split; [|reflexivity].
  intros Hno. apply CreatorFacts.segments_join. intros n Hn.
  split; [|now apply Hno].
  apply list_elem_of_fmap in Hn as (fl & -> & Hfl).
  apply list_elem_of_filter in Hfl as [Hfl _].
  now apply CreatorFacts.rendered_nonempty.
Qed.

(** An instance of C7: two creators with a name and one without; the
    first name of the second is missing. *)
Lemma clean_creators_join_of_rendered_names_witness :
  clean_creators (U := Text.basic)
    (PList [ PDict [(lit "firstName", PStr (lit " Jane"));
                    (lit "lastName", PStr (lit "Doe "))];
             PDict [(lit "firstName", PStr []); (lit "lastName", PStr [])];
             PDict [(lit "creatorType", PStr (lit "author"));
                    (lit "lastName", PStr (lit "Smith"))] ])
  = Ok (lit "Jane Doe; Smith") /\
  CreatorSpec.segments (lit "Jane Doe; Smith") = [lit "Jane Doe"; lit "Smith"].
Proof.
  pose proof (clean_creators_join_of_rendered_names (U := Text.basic)
    [ PDict [(lit "firstName", PStr (lit " Jane"));
             (lit "lastName", PStr (lit "Doe "))];
      PDict [(lit "firstName", PStr []); (lit "lastName", PStr [])];
      PDict [(lit "creatorType", PStr (lit "author"));
             (lit "lastName", PStr (lit "Smith"))] ]
    [ (lit " Jane", lit "Doe "); ([], []); ([], lit "Smith") ]) as H.
  destruct H as (Hout & _ & _ & Hseg & _).
  - repeat constructor.
  - split; [exact Hout | reflexivity].
Defined.

(** C7, as the claim has it, fails on the number of segments: one
    creator whose last name holds a "; " gives two segments. *)
Lemma clean_creators_segment_count_fails :
  clean_creators (U := Text.basic)
    (PList [PDict [(lit "lastName", PStr (lit "Doe; Smith"))]])
  = Ok (lit "Doe; Smith") /\
  length (CreatorSpec.segments (lit "Doe; Smith")) = 2%nat /\
  length (filter (CreatorSpec.named (U := Text.basic))
            [([], lit "Doe; Smith")]) = 1%nat.
Proof. repeat split. Qed.

(* ================================================================== *)
(** * [fetch_all_items] *)
(* ================================================================== *)

Module FetchFacts.
Import Fetch FetchSpec.

Section Loop.
Variable sleep_error : Z -> option exn.

#[local] Abbreviation loop := (loop sleep_error).
#[local] Abbreviation iteration := (iteration sleep_error).
#[local] Abbreviation fetch_all_items := (fetch_all_items sleep_error).

(** Running a script in two parts. *)
Lemma loop_app bs rs1 rs2 : forall st,
  loop bs st (rs1 ++ rs2) =
  match loop bs st rs1 with
  | (Waiting st', tr1) =>
      let (res, tr2) := loop bs st' rs2 in (res, tr1 ++ tr2)
  | other => other
  end.
Proof.
  induction rs1 as [|r rs1 IH]; intros st; simpl.
  - now destruct (loop bs st rs2).
  - destruct (iteration bs st r) as [st' d | items | e]; [|reflexivity..].
    rewrite IH. destruct (loop bs st' rs1) as [[items | e | st''] tr1];
      [reflexivity..|].
    now destruct (loop bs st'' rs2).
Qed.

Lemma loop_last bs rs r st st2 tr2 :
  loop bs st (rs ++ [r]) = (Waiting st2, tr2) ->
  exists st1 tr1 d,
    loop bs st rs = (Waiting st1, tr1) /\
    iteration bs st1 r = Continue st2 d /\
    tr2 = tr1 ++ [Get (start st1); Sleep d].
Proof.
  rewrite loop_app. destruct (loop bs st rs) as [[items | e | st1] tr1];
    [discriminate..|].
  simpl. destruct (iteration bs st1 r) as [st' d | items | e] eqn:Hit;
    [|discriminate..].
  intros [= <- <-]. now exists st1, tr1, d.
Qed.

Lemma trailing_failures_failure rs :
  trailing_failures (rs ++ [RequestException]) = 1 + trailing_failures rs.
Proof. unfold trailing_failures. now rewrite reverse_snoc. Qed.

Lemma trailing_failures_page rs items b :
  trailing_failures (rs ++ [Page items b]) = 0.
Proof. unfold trailing_failures. now rewrite reverse_snoc. Qed.

Lemma leading_failures_nonneg rs : 0 <= leading_failures rs.
Proof. induction rs as [|[] rs IH]; simpl; lia. Qed.

Lemma pages_app rs1 rs2 : pages (rs1 ++ rs2) = pages rs1 + pages rs2.
Proof. induction rs1 as [|[] rs1 IH]; simpl; lia. Qed.

Lemma fetched_app rs1 rs2 : fetched (rs1 ++ rs2) = fetched rs1 ++ fetched rs2.
Proof. unfold fetched. now rewrite map_app, concat_app. Qed.

(** A page that lets the loop go on. *)
Lemma iteration_page bs st items b st' d :
  iteration bs st (Page items b) = Continue st' d ->
  all_items st' = all_items st ++ records (Page items b) /\
  start st' = start st + bs /\
  retry_count st' = 0.
Proof.
  simpl. destruct (truthy items); [|discriminate]. simpl.
  destruct (py_iter items) as [elems|]; [|discriminate].
  destruct b as [[n|]|];
    [destruct (n <? 0); [discriminate|];
     destruct (sleep_error n); [discriminate|] |discriminate|];
    intros [= <- _]; auto.
Qed.

(** A failure that lets the loop go on. *)
Lemma iteration_failure bs st st' d :
  iteration bs st RequestException = Continue st' d ->
  all_items st' = all_items st /\
  start st' = start st /\
  retry_count st' = retry_count st + 1 /\
  retry_count st + 1 < 3.
Proof.
  simpl. unfold max_retries.
  destruct (retry_count st + 1 >=? 3) eqn:E; [discriminate|].
  intros [= <- _]. simpl. repeat split. lia.
Qed.

(** What the locals hold while the loop is still running. *)
Lemma loop_invariant bs rs : forall st tr,
  fetch_all_items bs rs = (Waiting st, tr) ->
  all_items st = fetched rs /\
  start st = bs * pages rs /\
  retry_count st = trailing_failures rs /\
  retry_count st < 3.
Proof.
  unfold fetch_all_items.
  induction rs as [|r rs IH] using rev_ind; intros st tr.
  - intros [= <- _]. simpl. repeat split; lia.
  - intros (st1 & tr1 & d & Hrun & Hit & _)%loop_last.
    destruct (IH _ _ Hrun) as (Hall & Hstart & Hretry & _).
    rewrite fetched_app, pages_app. destruct r as [|items b].
    + apply iteration_failure in Hit as (-> & -> & -> & Hlt).
      rewrite trailing_failures_failure. unfold fetched at 2. simpl.
      rewrite app_nil_r. repeat split; try assumption; lia.
    + apply iteration_page in Hit as (-> & -> & ->).
      rewrite trailing_failures_page. unfold fetched at 2. simpl.
      rewrite app_nil_r. repeat split; try lia. now rewrite Hall.
Qed.

Lemma retry_count_nonneg bs rs st tr :
  fetch_all_items bs rs = (Waiting st, tr) -> 0 <= retry_count st.
Proof.
  intros H. apply loop_invariant in H as (_ & _ & -> & _).
  apply leading_failures_nonneg.
Qed.

(** From a running loop, the failures that bring the counter to three
    end the function with what it holds. *)
Lemma loop_give_up bs st :
  0 <= retry_count st < 3 ->
  exists tr,
    loop bs st (replicate (Z.to_nat (3 - retry_count st)) RequestException)
    = (Returned (all_items st), tr) /\
    requests_at (start st) tr /\
    requests tr = Z.to_nat (3 - retry_count st).
Proof.
  intros Hr.
  assert (retry_count st = 0 \/ retry_count st = 1 \/ retry_count st = 2)
    as [E | [E | E]] by lia; rewrite E; simpl;
    unfold iteration, max_retries; simpl; rewrite E; simpl;
    eexists; (split; [reflexivity|]); split; try reflexivity;
    repeat constructor.
Qed.

End Loop.

End FetchFacts.

(** C3: while [fetch_all_items] is still running, its offset is the
    page size times the number of pages received, its retry counter is
    the number of failures since the last page (zero just after a page)
    and its list holds the records of the pages received.  A failed
    request that is not the third in a row is repeated at the same
    offset with the same list; the failures that bring the count to
    three in a row make the function return the records accumulated so
    far, every request in between being made at the same offset, and no
    exception leaves the function.  This holds whatever [time.sleep]
    does with the durations the server asks for. *)
Theorem fetch_all_items_retry_policy
    (sleep_error : Z -> option exn)
    (batch_size : Z) (responses : list Fetch.response)
    (st : Fetch.state) (trace : list Fetch.event) :
  Fetch.fetch_all_items sleep_error batch_size responses = (Fetch.Waiting st, trace) ->
  Fetch.start st = batch_size * FetchSpec.pages responses /\
  Fetch.retry_count st = FetchSpec.trailing_failures responses /\
  0 <= Fetch.retry_count st < 3 /\
  Fetch.all_items st = FetchSpec.fetched responses /\
  (Fetch.retry_count st + 1 < 3 ->
   Fetch.fetch_all_items sleep_error batch_size (responses ++ [Fetch.RequestException]) =
   (Fetch.Waiting {| Fetch.all_items := Fetch.all_items st;
                     Fetch.start := Fetch.start st;
                     Fetch.retry_count := Fetch.retry_count st + 1 |},
    trace ++ [Fetch.Get (Fetch.start st);
              Fetch.Sleep (Fetch.Seconds (2 ^ (Fetch.retry_count st + 1)))])) /\
  (forall items backoff st' trace',
      Fetch.fetch_all_items sleep_error batch_size (responses ++ [Fetch.Page items backoff])
      = (Fetch.Waiting st', trace') ->
      Fetch.retry_count st' = 0 /\
      Fetch.start st' = Fetch.start st + batch_size) /\
  exists trace',
    Fetch.fetch_all_items sleep_error batch_size
      (responses ++
       replicate (Z.to_nat (3 - FetchSpec.trailing_failures responses))
                 Fetch.RequestException)
    = (Fetch.Returned (FetchSpec.fetched responses), trace ++ trace') /\
    FetchSpec.requests_at (Fetch.start st) trace' /\
    FetchSpec.requests trace' =
    Z.to_nat (3 - FetchSpec.trailing_failures responses).
Proof.
  intros Hrun.
  pose proof (FetchFacts.retry_count_nonneg _ _ _ _ _ Hrun) as Hnn.
  destruct (FetchFacts.loop_invariant _ _ _ _ _ Hrun)
    as (Hall & Hstart & Hretry & Hlt).
  split; [assumption|]. split; [assumption|]. split; [lia|].
  split; [assumption|]. unfold Fetch.fetch_all_items in *.
  split; [|split].
  - intros Hnext. rewrite FetchFacts.loop_app, Hrun. simpl.
    unfold Fetch.max_retries.
    destruct (Fetch.retry_count st + 1 >=? 3) eqn:E; [lia|]. reflexivity.
  - intros items backoff st' trace' Hpage.
    apply FetchFacts.loop_last in Hpage as (st1 & tr1 & d & Hrun1 & Hit & _).
    rewrite Hrun in Hrun1. injection Hrun1 as <- <-.
    apply FetchFacts.iteration_page in Hit as (_ & -> & ->). auto.
  - destruct (FetchFacts.loop_give_up sleep_error batch_size st) as (tr & Hgive & Hat & Hn);
      [lia|].
    exists tr. rewrite FetchFacts.loop_app, Hrun, <- Hretry, Hgive, <- Hall.
    auto.
Qed.

(** Two failures, then the page, then the empty page that ends the
    collection: nothing is lost. *)
Example fetch_all_items_recovers :
  Fetch.fetch_all_items Fetch.sleep_error_64 100
    [ Fetch.RequestException; Fetch.RequestException;
      Fetch.Page (PList [PInt 1; PInt 2]) None; Fetch.Page (PList []) None ]
  = (Fetch.Returned [PInt 1; PInt 2],
     [ Fetch.Get 0; Fetch.Sleep (Fetch.Seconds 2);
       Fetch.Get 0; Fetch.Sleep (Fetch.Seconds 4);
       Fetch.Get 0; Fetch.Sleep Fetch.HalfSecond;
       Fetch.Get 100 ]).
Proof. reflexivity. Qed.

(** An instance of C3: a page, two failures and a page have been
    received; three failures in a row follow. *)
Lemma fetch_all_items_retry_policy_witness :
  exists trace',
    Fetch.fetch_all_items Fetch.sleep_error_64 100
      ([ Fetch.Page (PList [PInt 1; PInt 2]) None;
         Fetch.RequestException; Fetch.RequestException;
         Fetch.Page (PList [PInt 3]) (Some (Some 7)) ] ++
       [ Fetch.RequestException; Fetch.RequestException;
         Fetch.RequestException ])
    = (Fetch.Returned [PInt 1; PInt 2; PInt 3],
       [ Fetch.Get 0; Fetch.Sleep Fetch.HalfSecond;
         Fetch.Get 100; Fetch.Sleep (Fetch.Seconds 2);
         Fetch.Get 100; Fetch.Sleep (Fetch.Seconds 4);
         Fetch.Get 100; Fetch.Sleep (Fetch.Seconds 7) ] ++ trace') /\
    FetchSpec.requests_at 200 trace' /\
    FetchSpec.requests trace' = 3%nat.
Proof.
  exact (proj2 (proj2 (proj2 (proj2 (proj2 (proj2
    (fetch_all_items_retry_policy Fetch.sleep_error_64 100
       [ Fetch.Page (PList [PInt 1; PInt 2]) None;
         Fetch.RequestException; Fetch.RequestException;
         Fetch.Page (PList [PInt 3]) (Some (Some 7)) ]
       {| Fetch.all_items := [PInt 1; PInt 2; PInt 3];
          Fetch.start := 200; Fetch.retry_count := 0 |}
       [ Fetch.Get 0; Fetch.Sleep Fetch.HalfSecond;
         Fetch.Get 100; Fetch.Sleep (Fetch.Seconds 2);
         Fetch.Get 100; Fetch.Sleep (Fetch.Seconds 4);
         Fetch.Get 100; Fetch.Sleep (Fetch.Seconds 7) ]
       eq_refl))))))).
Defined.

(* ================================================================== *)
(** * The stable descending sort *)
(* ================================================================== *)

Module SortFacts.
Import SortSpec.

Section Sort.
Context {A : Type} (key : A -> Z).

Lemma insert_desc_perm x l : insert_desc key x l ≡ₚ x :: l.
Proof.
  induction l as [|y l IH]; simpl; [reflexivity|].
  destruct (key x <? key y); [|reflexivity].
  rewrite IH. apply Permutation_swap.
Qed.

Lemma sort_desc_perm l : sort_desc key l ≡ₚ l.
Proof.
  induction l as [|x l IH]; simpl; [reflexivity|].
  now rewrite insert_desc_perm, IH.
Qed.

Lemma insert_desc_descending x l :
  descending key l -> descending key (insert_desc key x l).
Proof.
  unfold descending. induction 1 as [|y l Hl IH Hy]; simpl.
  - repeat constructor.
  - destruct (key x <? key y) eqn:E.
    + constructor; [assumption|].
      rewrite insert_desc_perm. constructor; [lia | assumption].
    + constructor; [now constructor|].
      constructor; [lia|].
      eapply Forall_impl; [exact Hy|]. simpl. intros z Hz. lia.
Qed.

Lemma sort_desc_descending l : descending key (sort_desc key l).
Proof.
  induction l as [|x l IH]; simpl; [constructor|].
  now apply insert_desc_descending.
Qed.

Lemma insert_desc_filter k x l :
  filter (fun z => key z = k) (insert_desc key x l) =
  filter (fun z => key z = k) (x :: l).
Proof.
  induction l as [|y l IH]; simpl; [reflexivity|].
  destruct (key x <? key y) eqn:E; [|reflexivity].
  rewrite !filter_cons in *.
  destruct (decide (key y = k)), (decide (key x = k)); try lia;
    now rewrite IH.
Qed.

(** The sort keeps the elements of equal key in their order. *)
Lemma sort_desc_stable l : stable key (sort_desc key l) l.
Proof.
  intros k. induction l as [|x l IH]; simpl; [reflexivity|].
  now rewrite insert_desc_filter, !filter_cons, IH.
Qed.

Lemma filter_key_below k l :
  Forall (fun z => key z < k) l -> filter (fun z => key z = k) l = [].
Proof.
  induction 1 as [|z l Hz _ IH]; [reflexivity|].
  rewrite filter_cons. destruct (decide (key z = k)); [lia | assumption].
Qed.

Lemma descending_tail_below x y l :
  descending key (y :: l) -> key y < key x ->
  Forall (fun z => key z < key x) (y :: l).
Proof.
  intros H Hlt. inversion H as [|? ? _ Hy]; subst.
  constructor; [assumption|].
  eapply Forall_impl; [exact Hy|]. simpl. intros z Hz. lia.
Qed.

(** Two descending lists that are stable with respect to each other are
    equal. *)
Lemma descending_stable_unique l1 : forall l2,
  descending key l1 -> descending key l2 -> stable key l1 l2 -> l1 = l2.
Proof.
  induction l1 as [|x t1 IH]; intros [|y t2] H1 H2 Hst.
  - reflexivity.
  - specialize (Hst (key y)). rewrite filter_cons in Hst.
    destruct (decide (key y = key y)); [discriminate | congruence].
  - specialize (Hst (key x)). rewrite filter_cons in Hst.
    destruct (decide (key x = key x)); [discriminate | congruence].
  - assert (Hk : key x = key y).
    { destruct (Z.lt_trichotomy (key x) (key y)) as [Hlt | [Heq | Hgt]];
        [|assumption|]; exfalso.
      - specialize (Hst (key y)).
        rewrite (filter_key_below _ _ (descending_tail_below _ _ _ H1 Hlt)) in Hst.
        rewrite filter_cons in Hst.
        destruct (decide (key y = key y)); [discriminate | congruence].
      - specialize (Hst (key x)).
        rewrite (filter_key_below _ (y :: t2)) in Hst
          by (apply descending_tail_below; [assumption | lia]).
        rewrite filter_cons in Hst.
        destruct (decide (key x = key x)); [discriminate | congruence]. }
    assert (Hx : x = y).
    { specialize (Hst (key x)). rewrite !filter_cons in Hst.
      destruct (decide (key x = key x)); [|congruence].
      destruct (decide (key y = key x)); [|congruence].
      congruence. }
    subst y. f_equal. apply IH.
    + now inversion H1.
    + now inversion H2.
    + intros k. specialize (Hst k). rewrite !filter_cons in Hst.
      destruct (decide (key x = k)); congruence.
Qed.

(** No other arrangement is descending and stable: the model is the
    result of any stable sort by decreasing key. *)
Lemma sort_desc_unique l l' :
  descending key l' -> stable key l' l -> l' = sort_desc key l.
Proof.
  intros Hd Hst. apply descending_stable_unique.
  - assumption.
  - apply sort_desc_descending.
  - intros k. rewrite Hst. symmetry. apply sort_desc_stable.
Qed.

(** ** Order of two elements *)

Lemma before_cons_inv (y : A) l p q :
  before (y :: l) p q -> (p = y /\ q ∈ l) \/ before l p q.
Proof.
  intros ([|z l1] & l2 & l3 & Heq); simpl in Heq; injection Heq as -> ->.
  - left. split; [reflexivity|]. apply elem_of_app. right. left.
  - right. now exists l1, l2, l3.
Qed.

Lemma before_cons (y : A) l p q : before l p q -> before (y :: l) p q.
Proof. intros (l1 & l2 & l3 & ->). now exists (y :: l1), l2, l3. Qed.

Lemma before_head (p : A) l q : q ∈ l -> before (p :: l) p q.
Proof.
  intros (l2 & l3 & ->)%list_elem_of_split. now exists [], l2, l3.
Qed.

Lemma before_snoc_inv l (y p q : A) :
  before (l ++ [y]) p q -> before l p q \/ (p ∈ l /\ q = y).
Proof.
  induction l as [|z l IH]; simpl.
  - intros ([|? [|? ?]] & l2 & l3 & Heq); simpl in Heq;
      injection Heq as _ Heq; destruct l2; discriminate.
  - intros [[-> Hq] | H]%before_cons_inv.
    + apply elem_of_app in Hq as [Hq | Hq%list_elem_of_singleton].
      * left. now apply before_head.
      * right. split; [left | assumption].
    + destruct (IH H) as [Hb | [Hp ->]].
      * left. now apply before_cons.
      * right. split; [now right | reflexivity].
Qed.

Lemma before_filter (P : A -> Prop) `{!forall x, Decision (P x)} l p q :
  before l p q -> P p -> P q -> before (filter P l) p q.
Proof.
  intros (l1 & l2 & l3 & ->) Hp Hq.
  exists (filter P l1), (filter P l2), (filter P l3).
  rewrite filter_app, filter_cons_True, filter_app, filter_cons_True
    by assumption.
  reflexivity.
Qed.

Lemma before_of_filter (P : A -> Prop) `{!forall x, Decision (P x)} l p q :
  before (filter P l) p q -> before l p q.
Proof.
  induction l as [|y l IH]; simpl.
  - intros ([|? ?] & ? & ? & ?); discriminate.
  - rewrite filter_cons. destruct (decide (P y)).
    + intros [[-> Hq] | Hb]%before_cons_inv.
      * apply before_head. now apply list_elem_of_filter in Hq as [_ Hq].
      * apply before_cons. now apply IH.
    + intros Hb. apply before_cons. now apply IH.
Qed.

(** Two elements of equal key come out of the sort in the order they
    went in. *)
Lemma sort_desc_before l p q :
  before (sort_desc key l) p q -> key p = key q -> before l p q.
Proof.
  intros Hb Hk.
  apply (before_of_filter (fun x => key x = key p)).
  rewrite <- (sort_desc_stable l (key p)).
  now apply before_filter.
Qed.

Lemma lookup_before (l : list A) i j p q :
  l !! i = Some p -> l !! j = Some q -> (i < j)%nat -> before l p q.
Proof.
  revert i j. induction l as [|y l IH]; intros [|i] [|j] Hi Hj Hlt;
    try discriminate; try lia; simpl in *.
  - injection Hi as ->. apply before_head.
    now apply list_elem_of_lookup_2 in Hj.
  - apply before_cons. apply (IH i j); [assumption..|lia].
Qed.

End Sort.

End SortFacts.

(* ================================================================== *)
(** * [process_publications] *)
(* ================================================================== *)

Module ProcessFacts.
Import ProcessSpec SortSpec LoopSpec.

Section Tables.
Context {U : Text.Unicode}.

(** ** First occurrences *)

Lemma title_of_Some entry title :
  title_of entry = Some title <-> exists data, entry_title entry = Ok (data, title).
Proof.
  unfold title_of. destruct (entry_title entry) as [[data t]|]; split.
  - intros [= ->]. now exists data.
  - intros (data' & [= _ ->]). reflexivity.
  - discriminate.
  - intros (data' & ?). discriminate.
Qed.

Lemma first_index_lt title items a :
  first_index title items = Some a -> (a < length items)%nat.
Proof.
  revert a. induction items as [|e items IH]; intros a; simpl; [discriminate|].
  case_bool_decide.
  - intros [= <-]. lia.
  - destruct (first_index title items) as [a'|]; [|discriminate].
    intros [= <-]. specialize (IH a' eq_refl). lia.
Qed.

Lemma first_index_snoc title items entry :
  first_index title (items ++ [entry]) =
  match first_index title items with
  | Some a => Some a
  | None =>
      if bool_decide (title_of entry = Some title)
      then Some (length items) else None
  end.
Proof.
  induction items as [|e items IH]; simpl.
  - destruct (bool_decide (title_of entry = Some title)); reflexivity.
  - destruct (bool_decide (title_of e = Some title)); [reflexivity|].
    rewrite IH. destruct (first_index title items); [reflexivity|].
    destruct (bool_decide (title_of entry = Some title)); reflexivity.
Qed.

Lemma first_index_snoc_Some title items entry a :
  first_index title items = Some a ->
  first_index title (items ++ [entry]) = Some a.
Proof. intros H. now rewrite first_index_snoc, H. Qed.

Lemma earlier_snoc items entry p q :
  earlier items p q -> earlier (items ++ [entry]) p q.
Proof.
  intros (a & b & Ha & Hb & Hlt). exists a, b.
  now rewrite !(first_index_snoc_Some _ _ _ _ Ha),
              !(first_index_snoc_Some _ _ _ _ Hb).
Qed.

(** ** Counters *)

Lemma untitled_snoc items entry :
  untitled (items ++ [entry]) = untitled items + is_untitled entry.
Proof. induction items as [|e items IH]; simpl; lia. Qed.

Lemma repeats_snoc items entry : forall seen,
  repeats seen (items ++ [entry]) =
  repeats seen items + is_repeat (seen ++ items) entry.
Proof.
  induction items as [|e items IH]; intros seen; simpl.
  - rewrite app_nil_r. lia.
  - rewrite IH, <- app_assoc. simpl. lia.
Qed.

(** ** The publication record *)

Lemma or_None_trimmed s : absent_or_trimmed (or_None (Text.strip s)).
Proof.
  unfold or_None. destruct (Text.is_empty (Text.strip s)) eqn:E; simpl;
    [exact I|].
  split; [|apply StripFacts.strip_idemp].
  intros H. rewrite H in E. discriminate.
Qed.

Section Processing.
Variable f : pyval -> str.

Ltac bind_ok :=
  match goal with
  | |- context [bind ?r _] =>
      let E := fresh "E" in
      destruct r eqn:E; cbn [bind]; [|discriminate]
  end.

Lemma build_pub_Ok data title p :
  build_pub f data title = Ok p ->
  Pub.title p = title /\ well_formed p.
Proof.
  unfold build_pub. repeat bind_ok. intros [= <-]. simpl.
  repeat match goal with
         | H : py_strip ?v = Ok _ |- _ =>
             destruct v; try discriminate H; injection H as <-
         end.
  unfold well_formed. simpl. repeat split; apply or_None_trimmed.
Qed.

(** ** The loop body, case by case *)

Lemma process_entry_fate st entry : fate f st entry (process_entry f st entry).
Proof.
  unfold process_entry.
  destruct (entry_title entry) as [[data title]|e] eqn:E.
  - assert (Ht : title_of entry = Some title) by (unfold title_of; now rewrite E).
    destruct (Text.is_empty title) eqn:Hempty.
    + apply TextFacts.is_empty_true in Hempty as ->. now apply Untitled.
    + assert (title <> []) by (intros ->; discriminate).
      case_bool_decide.
      * now apply Repeat with title.
      * destruct (build_pub f data title) as [pub|e] eqn:Hb.
        -- eapply Produced; eassumption.
        -- eapply Failed; eassumption.
  - apply Malformed. unfold title_of. now rewrite E.
Qed.

Lemma process_loop_snoc items entry :
  process_loop f (items ++ [entry]) =
  process_entry f (process_loop f items) entry.
Proof. unfold process_loop. apply foldl_snoc. Qed.

(** ** What the locals hold after a prefix of the input *)

Lemma invariant_initial : invariant f [] pinitial.
Proof.
  split; simpl; try lia.
  - intros title. split; [set_solver|]. intros [_ [a Ha]]. discriminate.
  - intros p Hp. now apply elem_of_nil in Hp.
  - intros p q ([|? ?] & ? & ? & ?); discriminate.
  - intros a entry data title p H. discriminate.
Qed.

(** The first index of a title in the extended input, when the new
    record does not bring the title in. *)
Lemma first_index_snoc_other title items entry :
  (title_of entry = Some title -> is_Some (first_index title items)) ->
  first_index title (items ++ [entry]) = first_index title items.
Proof.
  intros H. rewrite first_index_snoc.
  destruct (first_index title items) as [a|] eqn:E; [reflexivity|].
  case_bool_decide as Ht; [|reflexivity].
  destruct (H Ht) as [a Ha]. discriminate.
Qed.

Lemma from_snoc items entry p :
  (exists a e data,
      first_index (Pub.title p) items = Some a /\
      items !! a = Some e /\
      entry_title e = Ok (data, Pub.title p) /\
      build_pub f data (Pub.title p) = Ok p) ->
  exists a e data,
      first_index (Pub.title p) (items ++ [entry]) = Some a /\
      (items ++ [entry]) !! a = Some e /\
      entry_title e = Ok (data, Pub.title p) /\
      build_pub f data (Pub.title p) = Ok p.
Proof.
  intros (a & e & data & Ha & He & Ht & Hb). exists a, e, data.
  split; [now apply first_index_snoc_Some|].
  split; [now apply lookup_app_l_Some | auto].
Qed.

(** A record that adds no title to the set leaves the facts about
    first occurrences as they are. *)
Lemma invariant_keep items st entry errs n :
  invariant f items st ->
  (forall title, title_of entry = Some title -> title <> [] ->
                 title ∈ duplicate_checker st) ->
  0 <= n ->
  errs = errors st + n ->
  n + is_untitled entry + is_repeat items entry = 1 ->
  invariant f (items ++ [entry])
    (with_state (filtered_publications st) (duplicate_checker st) errs).
Proof.
  intros [Hseen Hfrom Horder Hall Hcount Herr] Hold Hn -> Hone.
  assert (Hsame : forall title, title <> [] ->
            first_index title (items ++ [entry]) = first_index title items).
  { intros title Hne. apply first_index_snoc_other. intros Ht.
    now apply Hseen, Hold. }
  split; simpl.
  - intros title. rewrite Hseen. split; intros [Hne Hs]; (split; [assumption|]).
    + now rewrite Hsame.
    + now rewrite Hsame in Hs.
  - intros p Hp. destruct (Hfrom p Hp) as [Hne Hex]. split; [assumption|].
    now apply from_snoc.
  - intros p q Hb. now apply earlier_snoc, Horder.
  - intros a e data title p Ha He Ht Hne Hb.
    rewrite Hsame in Ha by assumption.
    apply (Hall a e data title p); try assumption.
    rewrite lookup_app_l in He; [assumption|]. now apply first_index_lt in Ha.
  - rewrite length_app, untitled_snoc, repeats_snoc. simpl. lia.
  - lia.
Qed.

Lemma is_untitled_other entry title :
  title_of entry = Some title -> title <> [] -> is_untitled entry = 0.
Proof.
  intros Ht Hne. unfold is_untitled. case_bool_decide; [congruence | reflexivity].
Qed.

Lemma is_repeat_new items entry title :
  title_of entry = Some title -> first_index title items = None ->
  is_repeat items entry = 0.
Proof.
  intros Ht Hnone. unfold is_repeat. rewrite Ht.
  case_bool_decide as H; [|reflexivity].
  destruct H as [_ [a Ha]]. congruence.
Qed.

(** A record that brings a new title in. *)
Lemma invariant_new items st entry data title pubs errs :
  invariant f items st ->
  entry_title entry = Ok (data, title) -> title <> [] ->
  title ∉ duplicate_checker st ->
  (pubs = [] /\ errs = errors st + 1 /\
   (exists e, build_pub f data title = Raise e)) \/
  (errs = errors st /\ exists p, pubs = [p] /\ build_pub f data title = Ok p) ->
  invariant f (items ++ [entry])
    (with_state (filtered_publications st ++ pubs)
                ({[ title ]} ∪ duplicate_checker st) errs).
Proof.
  intros [Hseen Hfrom Horder Hall Hcount Herr] Hentry Hne Hnew Hbuild.
  assert (Ht : title_of entry = Some title)
    by (apply title_of_Some; now exists data).
  assert (Hnone : first_index title items = None).
  { destruct (first_index title items) as [a|] eqn:E; [|reflexivity].
    exfalso. apply Hnew, Hseen. split; [assumption | now exists a]. }
  assert (Hhere : first_index title (items ++ [entry]) = Some (length items)).
  { rewrite first_index_snoc, Hnone. now rewrite bool_decide_eq_true_2. }
  assert (Hentry_at : (items ++ [entry]) !! length items = Some entry).
  { now rewrite list_lookup_middle. }
  assert (Hother : forall t, t <> title ->
            first_index t (items ++ [entry]) = first_index t items).
  { intros t Hd. apply first_index_snoc_other. congruence. }
  assert (Hold_from : forall p, p ∈ filtered_publications st ->
            Pub.title p <> [] /\
            exists a e d,
              first_index (Pub.title p) (items ++ [entry]) = Some a /\
              (items ++ [entry]) !! a = Some e /\
              entry_title e = Ok (d, Pub.title p) /\
              build_pub f d (Pub.title p) = Ok p).
  { intros p Hp. destruct (Hfrom p Hp) as [Hpne Hex]. split; [assumption|].
    now apply from_snoc. }
  assert (Hold_all : forall a e d t p,
            first_index t (items ++ [entry]) = Some a ->
            (items ++ [entry]) !! a = Some e ->
            entry_title e = Ok (d, t) -> t <> [] ->
            build_pub f d t = Ok p ->
            t <> title -> p ∈ filtered_publications st).
  { intros a e d t p Ha He Het Htne Hb Hd.
    rewrite Hother in Ha by assumption.
    apply (Hall a e d t p); try assumption.
    rewrite lookup_app_l in He; [assumption|]. now apply first_index_lt in Ha. }
  split; simpl.
  - intros t. rewrite elem_of_union, elem_of_singleton, Hseen.
    destruct (decide (t = title)) as [-> | Hd].
    + rewrite Hhere. split; [|now left]. intros _. split; [assumption | now eexists].
    + rewrite Hother by assumption. tauto.
  - intros p [Hp | Hp]%elem_of_app; [now apply Hold_from|].
    destruct Hbuild as [(-> & _) | (_ & p' & -> & Hb)];
      [now apply elem_of_nil in Hp|].
    apply list_elem_of_singleton in Hp as ->.
    destruct (build_pub_Ok _ _ _ Hb) as [Htitle _]. rewrite Htitle.
    split; [assumption|]. now exists (length items), entry, data.
  - intros p q Hb.
    destruct Hbuild as [(-> & _) | (_ & p' & -> & Hbuild)].
    + rewrite app_nil_r in Hb. now apply earlier_snoc, Horder.
    + apply SortFacts.before_snoc_inv in Hb as [Hb | [Hp ->]].
      * now apply earlier_snoc, Horder.
      * destruct (Hfrom p Hp) as [_ (a & _ & _ & Ha & _)].
        destruct (build_pub_Ok _ _ _ Hbuild) as [Htitle _].
        exists a, (length items). rewrite Htitle.
        split; [now apply first_index_snoc_Some|].
        split; [assumption|]. now apply first_index_lt in Ha.
  - intros a e d t p Ha He Het Htne Hb. apply elem_of_app.
    destruct (decide (t = title)) as [-> | Hd]; [|left; eauto].
    rewrite Hhere in Ha. injection Ha as <-.
    rewrite Hentry_at in He. injection He as <-.
    rewrite Hentry in Het. injection Het as <-.
    destruct Hbuild as [(_ & _ & ex & Hr) | (_ & p' & -> & Hb')];
      [congruence|].
    right. apply list_elem_of_singleton. congruence.
  - rewrite !length_app, untitled_snoc, repeats_snoc. simpl.
    rewrite (is_untitled_other _ _ Ht Hne), (is_repeat_new _ _ _ Ht Hnone).
    destruct Hbuild as [(-> & -> & _) | (-> & p' & -> & _)]; simpl; lia.
  - destruct Hbuild as [(_ & -> & _) | (-> & _)]; lia.
Qed.

Lemma invariant_step items st entry :
  invariant f items st ->
  invariant f (items ++ [entry]) (process_entry f st entry).
Proof.
  intros Hinv. destruct (process_entry_fate st entry)
    as [Hmal | Hun | title Ht Hne Hin | data title pub He Hne Hnew Hb
        | data title e He Hne Hnew Hb].
  - apply (invariant_keep _ _ _ _ 1 Hinv); try lia; [congruence|].
    unfold is_untitled, is_repeat. rewrite Hmal.
    now rewrite bool_decide_eq_false_2.
  - destruct st as [pubs seen errs].
    apply (invariant_keep _ _ _ _ 0 Hinv); simpl; try lia; [congruence|].
    unfold is_untitled, is_repeat. rewrite Hun.
    rewrite bool_decide_eq_true_2 by reflexivity.
    rewrite bool_decide_eq_false_2; [lia|]. intros [H _]. now apply H.
  - destruct st as [pubs seen errs]. simpl in Hin.
    apply (invariant_keep _ _ _ _ 0 Hinv); simpl; try lia; [congruence|].
    rewrite (is_untitled_other _ _ Ht Hne). unfold is_repeat. rewrite Ht.
    rewrite bool_decide_eq_true_2; [lia|].
    split; [assumption|]. now apply (inv_seen f _ _ Hinv).
  - apply (invariant_new _ _ _ data); try assumption.
    right. split; [reflexivity|]. now exists pub.
  - rewrite <- (app_nil_r (filtered_publications st)).
    apply (invariant_new _ _ _ data); try assumption.
    left. split; [reflexivity|]. split; [reflexivity|]. now exists e.
Qed.

Lemma process_loop_invariant items : invariant f items (process_loop f items).
Proof.
  induction items as [|entry items IH] using rev_ind.
  - apply invariant_initial.
  - rewrite process_loop_snoc. now apply invariant_step.
Qed.

(** The titles of the publications are all different. *)
Lemma titles_NoDup (l : list Pub.t) items :
  (forall p q, before l p q -> earlier items p q) ->
  NoDup (Pub.title <$> l).
Proof.
  induction l as [|p l IH]; intros Hord; simpl; [constructor|].
  constructor.
  - intros (q & Heq & Hq)%list_elem_of_fmap.
    destruct (Hord p q (SortFacts.before_head p l q Hq))
      as (a & b & Ha & Hb & Hlt).
    rewrite Heq, Hb in Ha. injection Ha as ->. lia.
  - apply IH. intros x y Hb. now apply Hord, SortFacts.before_cons.
Qed.

End Processing.

End Tables.

End ProcessFacts.

Module ProcessResults.
Import ProcessSpec SortSpec ProcessFacts.

Section Results.
Context {U : Text.Unicode}.
Variable f : pyval -> str.

Lemma output_perm items :
  (process_publications f items).1 ≡ₚ
  filtered_publications (process_loop f items).
Proof. apply SortFacts.sort_desc_perm. Qed.

Lemma output_elem items p :
  p ∈ (process_publications f items).1 <->
  p ∈ filtered_publications (process_loop f items).
Proof. now rewrite output_perm. Qed.

Lemma output_length items :
  length (process_publications f items).1 =
  length (filtered_publications (process_loop f items)).
Proof. now rewrite output_perm. Qed.

(** A record without a title leaves the locals as they are. *)
Lemma process_entry_untitled st entry data :
  entry_title entry = Ok (data, []) -> process_entry f st entry = st.
Proof. intros H. unfold process_entry. now rewrite H. Qed.

Lemma process_loop_untitled l1 entry l2 data :
  entry_title entry = Ok (data, []) ->
  process_loop f (l1 ++ entry :: l2) = process_loop f (l1 ++ l2).
Proof.
  intros H. unfold process_loop. rewrite !foldl_app. simpl.
  now rewrite (process_entry_untitled _ _ _ H).
Qed.

Lemma output_before items p q :
  before (process_publications f items).1 p q ->
  sort_key p = sort_key q ->
  earlier items p q.
Proof.
  intros Hb Hk. apply (LoopSpec.inv_order f _ _ (process_loop_invariant f items)).
  now apply (SortFacts.sort_desc_before sort_key).
Qed.

End Results.

End ProcessResults.

Module TitleFacts.
Import ProcessSpec.

(** The title the loop works with is the title of the record as the
    API gives it, trimmed. *)
Lemma entry_title_raw {U : Text.Unicode} entry title :
  (exists data, entry_title entry = Ok (data, title)) <->
  (exists raw, raw_title entry = Some raw /\ title = Text.strip raw).
Proof.
  unfold entry_title, raw_title, py_get.
  destruct entry as [| | | | |e]; cbn [bind];
    try (split; [intros [? ?] | intros (? & ? & ?)]; discriminate).
  destruct (assoc (lit "data") e) as [[| | | | |d]|]; cbn [bind];
    try (split; [intros [? ?] | intros (? & ? & ?)]; discriminate).
  - destruct (assoc (lit "title") d) as [[| | |s| |]|]; cbn [bind py_strip];
      try (split; [intros [? ?] | intros (? & ? & ?)]; discriminate).
    + split.
      * intros (data & [= _ <-]). now exists s.
      * intros (raw & [= <-] & ->). now eexists.
    + split.
      * intros (data & [= _ <-]). now exists [].
      * intros (raw & [= <-] & ->). now eexists.
  - cbn [assoc bind py_strip]. split.
    + intros (data & [= _ <-]). now exists [].
    + intros (raw & [= <-] & ->). now eexists.
Qed.

Lemma title_of_raw {U : Text.Unicode} entry :
  title_of entry = Text.strip <$> raw_title entry.
Proof.
  destruct (raw_title entry) as [raw|] eqn:E; simpl.
  - destruct (proj2 (entry_title_raw entry (Text.strip raw))) as [data Hd];
      [now exists raw|].
    unfold title_of. now rewrite Hd.
  - unfold title_of. destruct (entry_title entry) as [[data title]|] eqn:Hd;
      [|reflexivity].
    destruct (proj1 (entry_title_raw entry title)) as (raw & Hraw & _);
      [now exists data | congruence].
Qed.

End TitleFacts.

(** C4, as the code has it.  The title the loop works with is the title
    of the record trimmed of the white space of Unicode.  A record
    whose title is empty after trimming produces no publication and
    counts for no error: with or without it, the publications and the
    error count are the same, and no publication has an empty title.
    The titles of the publications are pairwise different, each
    publication is the one built from the first record of the input
    that has its trimmed title (two titles being the same when they are
    equal strings), and the first record with a given title is in the
    output when its fields build a publication; when they raise, the
    title is in no publication. *)
Theorem process_publications_first_titled_record
    {U : Text.Unicode} (f : pyval -> str) (items : list pyval) :
  (forall entry title,
      (exists data, entry_title entry = Ok (data, title)) <->
      (exists raw, ProcessSpec.raw_title entry = Some raw /\
                   title = Text.strip raw)) /\
  (forall l1 entry l2 raw,
      items = l1 ++ entry :: l2 ->
      ProcessSpec.raw_title entry = Some raw ->
      Text.strip raw = [] ->
      (process_publications f items).1 = (process_publications f (l1 ++ l2)).1 /\
      errors_encountered (process_publications f items).2 =
      errors_encountered (process_publications f (l1 ++ l2)).2) /\
  NoDup (Pub.title <$> (process_publications f items).1) /\
  (forall p,
      p ∈ (process_publications f items).1 ->
      Pub.title p <> [] /\
      exists a entry data,
        ProcessSpec.first_index (Pub.title p) items = Some a /\
        items !! a = Some entry /\
        entry_title entry = Ok (data, Pub.title p) /\
        build_pub f data (Pub.title p) = Ok p) /\
  (forall a entry data title,
      ProcessSpec.first_index title items = Some a ->
      items !! a = Some entry ->
      entry_title entry = Ok (data, title) ->
      title <> [] ->
      match build_pub f data title with
      | Ok p => p ∈ (process_publications f items).1
      | Raise _ =>
          forall q, q ∈ (process_publications f items).1 -> Pub.title q <> title
      end).
Proof.
  pose proof (ProcessFacts.process_loop_invariant f items) as Hinv.
  split; [exact TitleFacts.entry_title_raw|].
  split; [|split; [|split]].
  - intros l1 entry l2 raw -> Hraw Hempty.
    destruct (proj2 (TitleFacts.entry_title_raw entry []))
      as [data Hentry]; [exists raw; now rewrite Hempty|].
    unfold process_publications. simpl.
    now rewrite (ProcessResults.process_loop_untitled f _ _ _ _ Hentry).
  - rewrite ProcessResults.output_perm.
    apply (ProcessFacts.titles_NoDup _ items).
    apply (LoopSpec.inv_order f _ _ Hinv).
  - intros p Hp%ProcessResults.output_elem.
    now apply (LoopSpec.inv_from f _ _ Hinv).
  - intros a entry data title Ha He Ht Hne.
    destruct (build_pub f data title) as [p|e] eqn:Hb.
    + apply ProcessResults.output_elem.
      now apply (LoopSpec.inv_all f _ _ Hinv a entry data title p).
    + intros q Hq%ProcessResults.output_elem Heq.
      destruct (LoopSpec.inv_from f _ _ Hinv q Hq)
        as [_ (a' & entry' & data' & Ha' & He' & Ht' & Hb')].
      rewrite Heq in Ha', Ht', Hb'. rewrite Ha in Ha'. injection Ha' as <-.
      rewrite He in He'. injection He' as <-.
      rewrite Ht in Ht'. injection Ht' as <-. congruence.
Qed.

(** C4, as the claim has it, fails: of two records with the title
    "Reef fish", the first has a DOI that is null.  It is the first
    record met with the title and it produces no publication: it counts
    for an error, the second record is skipped as seen before, and the
    output is empty. *)
Lemma first_record_raising_claims_title :
  let first := PDict [(lit "data", PDict [(lit "title", PStr (lit "Reef fish"));
                                          (lit "DOI", PNone)])] in
  let second := Samples.record "Reef fish" "2001" in
  ProcessSpec.raw_title first = Some (lit "Reef fish") /\
  ProcessSpec.raw_title second = Some (lit "Reef fish") /\
  process_publications (U := Text.basic) (fun _ => []) [first; second]
  = ([], {| successfully_processed := 0;
            errors_encountered := 1;
            duplicates_removed := 1 |}) /\
  process_publications (U := Text.basic) (fun _ => []) [second]
  = ([Samples.pub "Reef fish" 2001 "Unknown"],
     {| successfully_processed := 1;
        errors_encountered := 0;
        duplicates_removed := 0 |}).
Proof. repeat split. Qed.

(** C5: the list returned by [process_publications] is non-increasing
    by year, a publication without a year counting as of year 0. *)
Theorem process_publications_descending_years
    {U : Text.Unicode} (f : pyval -> str) (items : list pyval) :
  StronglySorted (fun p q => sort_key q <= sort_key p)
    (process_publications f items).1 /\
  (forall p, sort_key p = match Pub.year p with Some y => y | None => 0 end).
Proof.
  split.
  - apply (SortFacts.sort_desc_descending sort_key).
  - intros p. unfold sort_key. destruct (Pub.year p) as [y|]; [|reflexivity].
    destruct (y =? 0) eqn:E; [|reflexivity]. lia.
Qed.

(** C6: the "duplicates removed" figure is the number of input records
    minus the number of publications minus the number of errors; it is
    not a count of duplicates kept on its own, and it is the number of
    records met again plus the number of records without a title. *)
Theorem duplicates_removed_is_derived
    {U : Text.Unicode} (f : pyval -> str) (items : list pyval) :
  let out := (process_publications f items).1 in
  let rep := (process_publications f items).2 in
  duplicates_removed rep =
    Z.of_nat (length items) - Z.of_nat (length out) - errors_encountered rep /\
  successfully_processed rep = Z.of_nat (length out) /\
  duplicates_removed rep =
    ProcessSpec.repeats [] items + ProcessSpec.untitled items.
Proof.
  intros out rep. split; [reflexivity|]. split; [reflexivity|].
  pose proof (LoopSpec.inv_count f _ _
                (ProcessFacts.process_loop_invariant f items)) as Hc.
  rewrite <- (ProcessResults.output_length f items) in Hc.
  change (duplicates_removed rep)
    with (Z.of_nat (length items) - Z.of_nat (length out)
          - errors (process_loop f items)).
  subst out. lia.
Qed.

(** The figure of C6 is not the number of duplicates: one record
    without a title and no duplicate give "1 duplicate removed". *)
Example duplicates_removed_counts_untitled :
  let items := [PDict [(lit "data", PDict [(lit "title", PStr (lit "  "))])]] in
  duplicates_removed
    (process_publications (U := Text.basic) (fun _ => []) items).2 = 1 /\
  ProcessSpec.repeats (U := Text.basic) [] items = 0.
Proof. split; reflexivity. Qed.

(** C9: in every publication of the output, the region is
    [assign_region] of the publication's own title, and each of doi,
    issn, url and publication_title is absent or a trimmed string that
    is not empty. *)
Theorem process_publications_well_formed
    {U : Text.Unicode} (f : pyval -> str) (items : list pyval) :
  Forall ProcessSpec.well_formed (process_publications f items).1.
Proof.
  apply Forall_forall. intros p Hp%ProcessResults.output_elem.
  destruct (LoopSpec.inv_from f _ _
              (ProcessFacts.process_loop_invariant f items) p Hp)
    as [_ (a & entry & data & _ & _ & _ & Hb)].
  now destruct (ProcessFacts.build_pub_Ok f _ _ _ Hb).
Qed.

(** C10: of two publications of the output with the same effective
    year, the one that comes first is the one whose title occurs first
    in the input. *)
Theorem process_publications_equal_years_in_input_order
    {U : Text.Unicode} (f : pyval -> str) (items : list pyval)
    (i j : nat) (p q : Pub.t) :
  (process_publications f items).1 !! i = Some p ->
  (process_publications f items).1 !! j = Some q ->
  (i < j)%nat ->
  sort_key p = sort_key q ->
  ProcessSpec.earlier items p q.
Proof.
  intros Hi Hj Hlt Hk. apply (ProcessResults.output_before f); [|assumption].
  now apply (SortFacts.lookup_before _ i j).
Qed.

(** An instance of C4: the first record titled "Reef fish" is in the
    output of the sample input. *)
Lemma process_publications_first_titled_record_witness :
  Samples.pub "Reef fish" 2001 "Unknown"
  ∈ (process_publications (U := Text.basic) (fun _ => []) Samples.items).1.
Proof.
  apply (proj2 (proj2 (proj2 (proj2
           (process_publications_first_titled_record
              (U := Text.basic) (fun _ => []) Samples.items))))
         0%nat (Samples.record " Reef fish " "2001")
         (PDict [(lit "title", PStr (lit " Reef fish "));
                 (lit "date", PStr (lit "2001"))])
         (lit "Reef fish")).
  - reflexivity.
  - reflexivity.
  - reflexivity.
  - discriminate.
Defined.

(** An instance of C10: "Reef fish" and "reef fish", both of 2001, come
    out in the order of the input. *)
Lemma process_publications_equal_years_in_input_order_witness :
  ProcessSpec.earlier (U := Text.basic) Samples.items
    (Samples.pub "Reef fish" 2001 "Unknown")
    (Samples.pub "reef fish" 2001 "Unknown").
Proof.
  apply (process_publications_equal_years_in_input_order
           (U := Text.basic) (fun _ => []) Samples.items 1 2).
  - vm_compute. reflexivity.
  - vm_compute. reflexivity.
  - lia.
  - reflexivity.
Defined.

(* ================================================================== *)
(** * [main]: the endpoint *)
(* ================================================================== *)

(** C8, as the code has it: with an API key and a group id, [main]
    fetches from the collection-level URL when the collection key is
    neither empty nor "VD8Z582Z", from the group-level URL when the
    collection key is "VD8Z582Z", and exits with status 1, fetching
    from nowhere, when the collection key is absent or empty. *)
Theorem main_endpoint_by_collection_key (a : Main.parsed_args) (g : string) :
  Main.missing (Main.api_key a) = false ->
  Main.group_id a = Some g ->
  g <> EmptyString ->
  (forall k, Main.collection_key a = Some k -> k <> EmptyString ->
     k <> "VD8Z582Z"%string ->
     Main.main_endpoint a =
     Main.FetchFrom ("https://api.zotero.org/groups/" +:+ g +:+
                     "/collections/" +:+ k +:+ "/items")) /\
  (Main.collection_key a = Some "VD8Z582Z"%string ->
     Main.main_endpoint a =
     Main.FetchFrom ("https://api.zotero.org/groups/" +:+ g +:+ "/items")) /\
  (Main.missing (Main.collection_key a) = true ->
     Main.main_endpoint a = Main.SysExit 1).
Proof.
  intros Hkey Hg Hne. unfold Main.main_endpoint. rewrite Hkey, Hg.
  assert (Hgm : Main.missing (Some g) = false).
  { destruct g; [contradiction | reflexivity]. }
  rewrite Hgm. split; [|split].
  - intros k Hk Hkne Hreal. rewrite Hk.
    assert (Hkm : Main.missing (Some k) = false).
    { destruct k; [contradiction | reflexivity]. }
    rewrite Hkm. simpl. rewrite bool_decide_eq_false_2; [reflexivity|].
    congruence.
  - intros Hk. rewrite Hk. reflexivity.
  - intros Hm. now rewrite Hm.
Qed.

(** An instance of C8: a collection key of the group. *)
Lemma main_endpoint_by_collection_key_witness :
  Main.main_endpoint (Samples.args (Some "AB12CD34"%string)) =
  Main.FetchFrom "https://api.zotero.org/groups/2514686/collections/AB12CD34/items".
Proof.
  apply (proj1 (main_endpoint_by_collection_key
                  (Samples.args (Some "AB12CD34"%string)) "2514686"
                  eq_refl eq_refl ltac:(discriminate))
         "AB12CD34"%string eq_refl);
    discriminate.
Defined.

(** C8, as the claim has it, fails when no collection key is supplied:
    [main] exits and does not fetch from the group-level URL. *)
Lemma main_endpoint_without_collection_key_exits :
  Main.main_endpoint (Samples.args None) = Main.SysExit 1 /\
  Main.main_endpoint (Samples.args None) <>
  Main.FetchFrom "https://api.zotero.org/groups/2514686/items".
Proof. split; [reflexivity | discriminate]. Qed.

(* ================================================================== *)
(** * More on the helper functions *)
(* ================================================================== *)

Module HelperFacts.
Import Text TextFacts Regex YearSpec RegionNames CreatorSpec.

Section Tables.
Context {U : Unicode}.

Lemma int_four_digits d1 d2 d3 d4 :
  is_digit d1 = true -> is_digit d2 = true ->
  is_digit d3 = true -> is_digit d4 = true ->
  0 <= int [d1; d2; d3; d4] <= 9999.
Proof.
  intros H1%digit_value_range H2%digit_value_range
         H3%digit_value_range H4%digit_value_range.
  unfold int. simpl. lia.
Qed.

(** What the search finds is the text of a number below 10000. *)
Lemma search_in_range prev s m :
  search prev s = Some m -> 0 <= int m <= 9999.
Proof.
  intros E. apply YearFacts.search_Some in E as (pre & rest & _ & Hm & _).
  apply YearFacts.match_here_spec in Hm
    as (post & d1 & d2 & d3 & d4 & _ & -> & H1 & H2 & H3 & H4 & _).
  now apply int_four_digits.
Qed.

(** ** Case *)

Lemma is_empty_lower s : is_empty (lower s) = is_empty s.
Proof.
  destruct s as [|c s]; [now rewrite RegionFacts.lower_empty|].
  destruct (lower (c :: s)) eqn:E; [|reflexivity].
  now apply lower_nil in E.
Qed.

End Tables.

(** ** Keywords inside keywords *)

Lemma contains_trans k k' text :
  contains k k' = true -> contains k' text = true -> contains k text = true.
Proof.
  intros (a & b & ->)%contains_spec (pre & post & ->)%contains_spec.
  apply contains_spec. exists (pre ++ a), (b ++ post).
  now rewrite <- !app_assoc.
Qed.

Ltac drop_keyword long short :=
  let H := fresh "H" in
  match goal with
  | |- context [contains long ?t] =>
      pose proof (contains_trans short long t eq_refl) as H;
      destruct (contains short t); [|destruct (contains long t);
        [specialize (H eq_refl); discriminate|]]
  end.

Lemma any_in_hawaii text :
  any_in [lit "hawai"; lit "hawaii"; lit "kahekili"; lit "maui"; lit "ahu";
          lit "northwestern"; papahanaumokuakea; lit "kauai"; lit "oahu";
          lit "big island"] text =
  any_in [lit "hawai"; lit "kahekili"; lit "maui"; lit "ahu";
          lit "northwestern"; papahanaumokuakea; lit "kauai";
          lit "big island"] text.
Proof.
  unfold any_in. cbn [existsb].
  drop_keyword (lit "hawaii") (lit "hawai"); [reflexivity|].
  drop_keyword (lit "oahu") (lit "ahu"); simpl.
  - now rewrite !orb_true_r.
  - reflexivity.
Qed.

Lemma any_in_samoa text :
  any_in [lit "samoa"; lit "aua"; lit "swains"; lit "american samoa"] text =
  any_in [lit "samoa"; lit "aua"; lit "swains"] text.
Proof.
  unfold any_in. cbn [existsb].
  drop_keyword (lit "american samoa") (lit "samoa"); [reflexivity|].
  simpl. now rewrite !orb_false_r.
Qed.

Lemma any_in_jarvis text :
  any_in [lit "wake"; lit "baker"; lit "howland"; lit "jarvis"; lit "palmyra";
          lit "kingman"; lit "johnston"; lit "jarvisisland"] text =
  any_in [lit "wake"; lit "baker"; lit "howland"; lit "jarvis"; lit "palmyra";
          lit "kingman"; lit "johnston"] text.
Proof.
  unfold any_in. cbn [existsb].
  drop_keyword (lit "jarvisisland") (lit "jarvis"); simpl.
  - now rewrite !orb_true_r.
  - now rewrite !orb_false_r.
Qed.

(** [assign_region] on a title that is not empty: the first group with
    a keyword in the lower-cased title. *)
Lemma assign_region_first_group {U : Unicode} title :
  assign_region title =
  if is_empty title then lit "Unknown"
  else first_group RegionSpec.groups (lower title).
Proof.
  unfold assign_region. destruct (is_empty title); [reflexivity|].
  cbv zeta. rewrite RegionFacts.contains_pacific.
  unfold first_group, RegionSpec.groups. cbn [List.find snd fst].
  repeat match goal with
         | |- context [any_in ?l ?t] => destruct (any_in l t)
         end; reflexivity.
Qed.

(** ** Creators that cannot be formatted *)

Section Creators.
Context {U : Unicode}.

Lemma creator_step_raises names creator :
  creator_names creator = None ->
  creator_step names creator = Raise AttributeError.
Proof.
  destruct creator as [| | | | |d]; try reflexivity.
  unfold creator_names, name_field, creator_step, py_get.
  destruct (assoc (lit "firstName") d) as [[]|]; try reflexivity;
    destruct (assoc (lit "lastName") d) as [[]|]; try reflexivity; discriminate.
Qed.

Lemma creators_loop_raises creators : forall names,
  (exists creator, creator ∈ creators /\ creator_names creator = None) ->
  creators_loop names creators = Raise AttributeError.
Proof.
  induction creators as [|c creators IH]; intros names (bad & Hin & Hbad).
  - now apply elem_of_nil in Hin.
  - simpl. destruct (creator_names c) as [fl|] eqn:Hc.
    + rewrite (CreatorFacts.creator_step_names _ _ _ Hc). cbn [bind].
      apply IH. exists bad. split; [|assumption].
      apply elem_of_cons in Hin as [-> | Hin]; [congruence | assumption].
    + now rewrite (creator_step_raises _ _ Hc).
Qed.

End Creators.

(** Every entry has names, or one has not. *)
Lemma creator_names_all_or_one creators :
  (exists raw,
      Forall2 (fun creator fl => creator_names creator = Some fl) creators raw) \/
  (exists creator, creator ∈ creators /\ creator_names creator = None).
Proof.
  induction creators as [|c creators [[raw IH] | (bad & Hin & Hbad)]].
  - left. exists []. constructor.
  - destruct (creator_names c) as [fl|] eqn:Hc.
    + left. exists (fl :: raw). now constructor.
    + right. exists c. split; [left | assumption].
  - right. exists bad. split; [now right | assumption].
Qed.

End HelperFacts.

(** X1: a year returned by [extract_year] lies between 0 and 9999,
    whatever the value of the date field. *)
Theorem extract_year_range
    {U : Text.Unicode} (f : pyval -> str) (date_str : pyval) (y : Z) :
  extract_year f date_str = Some y -> 0 <= y <= 9999.
Proof.
  unfold extract_year. destruct (negb (truthy date_str)); [discriminate|].
  unfold Regex.re_search_year.
  destruct (Regex.search None (py_str f date_str)) as [m|] eqn:E;
    [|discriminate].
  intros [= <-]. now apply (HelperFacts.search_in_range None (py_str f date_str)).
Qed.

Lemma extract_year_range_witness : 0 <= 2020 <= 9999.
Proof.
  exact (extract_year_range (U := Text.basic) (fun _ => [])
           (PStr (lit "2020-03-01")) 2020 eq_refl).
Defined.

(** X2: a date that starts with four decimal digits followed by the end
    of the string or by a character that is not a word character gives
    these four digits, whatever comes after; digits and word characters
    are the ones of Unicode, whatever its tables are. *)
Theorem extract_year_leading_digits
    {U : Text.Unicode} (f : pyval -> str) (d1 d2 d3 d4 : N) (rest : str) :
  Text.is_digit d1 = true -> Text.is_digit d2 = true ->
  Text.is_digit d3 = true -> Text.is_digit d4 = true ->
  YearSpec.edge_ok Text.is_word (Text.head rest) = true ->
  extract_year f (PStr (d1 :: d2 :: d3 :: d4 :: rest)) =
  Some (Text.int [d1; d2; d3; d4]).
Proof.
  intros H1 H2 H3 H4 Hedge. rewrite YearFacts.extract_year_str.
  rewrite YearFacts.search_cons.
  assert (Hm : Regex.match_here None (d1 :: d2 :: d3 :: d4 :: rest) =
               Some [d1; d2; d3; d4]).
  { apply YearFacts.match_here_spec. exists rest, d1, d2, d3, d4.
    repeat split; assumption. }
  now rewrite Hm.
Qed.

Lemma extract_year_leading_digits_witness :
  extract_year (U := Text.basic) (fun _ => [])
    (PStr (lit "1987/88, vol. 2001")) = Some 1987.
Proof.
  exact (extract_year_leading_digits (U := Text.basic) (fun _ => [])
           49%N 57%N 56%N 55%N (lit "/88, vol. 2001")
           eq_refl eq_refl eq_refl eq_refl eq_refl).
Defined.

(** X3: [assign_region] does not look at the case of letters: two
    titles with the same lower-case form get the same region, and so do
    a title and its lower-case form. *)
Theorem assign_region_ignores_case {U : Text.Unicode} :
  (forall t1 t2, Text.lower t1 = Text.lower t2 ->
                 assign_region t1 = assign_region t2) /\
  (forall t, assign_region (Text.lower t) = assign_region t).
Proof.
  assert (H : forall t1 t2, Text.lower t1 = Text.lower t2 ->
                            assign_region t1 = assign_region t2).
  { intros t1 t2 Heq. unfold assign_region.
    rewrite <- (HelperFacts.is_empty_lower t1), <- (HelperFacts.is_empty_lower t2).
    cbv zeta. now rewrite Heq. }
  split; [exact H|]. intros t. apply H, Text.lower_idemp.
Qed.

Lemma assign_region_ignores_case_witness :
  assign_region (U := Text.basic) (lit "SAIPAN Lagoon") =
  assign_region (U := Text.basic) (lit "Saipan lagoon").
Proof.
  exact (proj1 (assign_region_ignores_case (U := Text.basic)) _ _ eq_refl).
Defined.

(** X4: the keywords "hawaii", "oahu", "american samoa" and
    "jarvisisland" never decide: each holds a shorter keyword of its own
    group, so that in every text the first group with a keyword is the
    same with and without them, and [assign_region] is the first-match
    classification of the lower-cased title over the groups without
    them. *)
Theorem assign_region_essential_keywords :
  (forall text,
      RegionNames.first_group RegionSpec.groups text =
      RegionNames.first_group RegionNames.essential_groups text) /\
  (forall (U : Text.Unicode) title,
      assign_region title =
      if Text.is_empty title then lit "Unknown"
      else RegionNames.first_group RegionNames.essential_groups
             (Text.lower title)).
Proof.
  assert (H : forall text,
      RegionNames.first_group RegionSpec.groups text =
      RegionNames.first_group RegionNames.essential_groups text).
  { intros text.
    unfold RegionNames.first_group, RegionSpec.groups,
      RegionNames.essential_groups.
    cbn [List.find snd fst].
    rewrite HelperFacts.any_in_hawaii, HelperFacts.any_in_samoa,
            HelperFacts.any_in_jarvis.
    repeat match goal with
           | |- context [any_in ?l ?t] => destruct (any_in l t)
           end; reflexivity. }
  split; [exact H|]. intros U title.
  rewrite HelperFacts.assign_region_first_group.
  destruct (Text.is_empty title); [reflexivity | apply H].
Qed.

(** X5: on a list, [clean_creators] raises AttributeError exactly when
    some entry is not a dict or has a firstName or lastName that is not
    a string; one such entry loses the names of all the others. *)
Theorem clean_creators_raises_iff {U : Text.Unicode} (creators : list pyval) :
  clean_creators (PList creators) = Raise AttributeError <->
  exists creator, creator ∈ creators /\ CreatorSpec.creator_names creator = None.
Proof.
  split.
  - intros Hraise.
    destruct (HelperFacts.creator_names_all_or_one creators)
      as [[raw Hall] | Hbad]; [|assumption].
    rewrite (CreatorFacts.clean_creators_names _ _ Hall) in Hraise.
    discriminate.
  - intros Hbad. unfold clean_creators. destruct creators as [|c creators].
    + destruct Hbad as (bad & Hin & _). now apply elem_of_nil in Hin.
    + cbn [truthy negb py_iter bind].
      now rewrite (HelperFacts.creators_loop_raises _ _ Hbad).
Qed.

Lemma clean_creators_raises_iff_witness :
  clean_creators (U := Text.basic)
    (PList [ PDict [(lit "firstName", PStr (lit "Jane"));
                    (lit "lastName", PStr (lit "Doe"))];
             PDict [(lit "lastName", PNone)] ])
  = Raise AttributeError.
Proof.
  apply (proj2 (clean_creators_raises_iff (U := Text.basic) _)).
  exists (PDict [(lit "lastName", PNone)]).
  split; [right; left | reflexivity].
Defined.

(** X6: on a list of entries with string names, [clean_creators]
    returns the empty string exactly when no entry has a name left
    after trimming, the white space trimmed being the one of Unicode,
    whatever its table is. *)
Theorem clean_creators_empty_iff
    {U : Text.Unicode} (creators : list pyval) (raw : list (str * str)) :
  Forall2 (fun creator fl => CreatorSpec.creator_names creator = Some fl)
    creators raw ->
  (clean_creators (PList creators) = Ok [] <->
   filter CreatorSpec.named raw = []).
Proof.
  intros Hall. rewrite (CreatorFacts.clean_creators_names _ _ Hall). split.
  - destruct (filter CreatorSpec.named raw) as [|fl named] eqn:E;
      [reflexivity|].
    intros [= Hjoin]. exfalso.
    change (Text.join (lit "; ")
              (CreatorSpec.rendered fl :: (CreatorSpec.rendered <$> named)) = [])
      in Hjoin.
    apply CreatorFacts.join_nonempty in Hjoin; [assumption|].
    apply CreatorFacts.rendered_nonempty.
    assert (Hin : fl ∈ filter CreatorSpec.named raw) by (rewrite E; left).
    now apply list_elem_of_filter in Hin as [Hn _].
  - intros ->. reflexivity.
Qed.

Lemma clean_creators_empty_iff_witness :
  clean_creators (U := Text.basic)
    (PList [ PDict [(lit "name", PStr (lit "NOAA"))];
             PDict [(lit "firstName", PStr (lit "  "));
                    (lit "lastName", PStr [])] ])
  = Ok [].
Proof.
  apply (proj2 (clean_creators_empty_iff (U := Text.basic)
                  [ PDict [(lit "name", PStr (lit "NOAA"))];
                    PDict [(lit "firstName", PStr (lit "  "));
                           (lit "lastName", PStr [])] ]
                  [ ([], []); (lit "  ", []) ]
                  ltac:(repeat constructor))).
  reflexivity.
Defined.

(* ================================================================== *)
(** * More on [fetch_all_items] *)
(* ================================================================== *)

Module FetchMore.
Import Fetch FetchSpec FetchTrace FetchFacts.

Section Loop.
Variable sleep_error : Z -> option exn.

#[local] Abbreviation loop := (loop sleep_error).
#[local] Abbreviation iteration := (iteration sleep_error).
#[local] Abbreviation fetch_all_items := (fetch_all_items sleep_error).

Lemma requests_app tr1 tr2 :
  requests (tr1 ++ tr2) = (requests tr1 + requests tr2)%nat.
Proof. induction tr1 as [|[] tr1 IH]; simpl; lia. Qed.

Lemma waiting_requests bs rs : forall st st' tr,
  loop bs st rs = (Waiting st', tr) -> requests tr = length rs.
Proof.
  induction rs as [|r rs IH]; intros st st' tr; simpl.
  - now intros [= _ <-].
  - destruct (iteration bs st r) as [st1 d | items | e]; [|discriminate..].
    destruct (loop bs st1 rs) as [res tr1] eqn:E. intros [= -> <-].
    simpl. now rewrite (IH _ _ _ E).
Qed.

(** A run that is over stopped at one response, the loop running until
    then. *)
Lemma loop_ended bs rs : forall st res tr,
  loop bs st rs = (res, tr) ->
  (forall st', res <> Waiting st') ->
  exists pre r rest st1 tr1,
    rs = pre ++ r :: rest /\
    loop bs st pre = (Waiting st1, tr1) /\
    tr = tr1 ++ [Get (start st1)] /\
    match iteration bs st1 r with
    | Break items => res = Returned items
    | Uncaught e => res = Raised e
    | Continue _ _ => False
    end.
Proof.
  induction rs as [|r rs IH]; intros st res tr; simpl.
  - intros [= <- <-] Hn. now destruct (Hn st).
  - destruct (iteration bs st r) as [st1 d | items | e] eqn:Hit.
    + destruct (loop bs st1 rs) as [res1 tr1] eqn:E. intros [= <- <-] Hn.
      destruct (IH _ _ _ E Hn) as (pre & r0 & rest & st2 & tr2 & -> & Hpre & -> & Hend).
      exists (r :: pre), r0, rest, st2, (Get (start st) :: Sleep d :: tr2).
      split; [reflexivity|]. split; [simpl; now rewrite Hit, Hpre|].
      split; [reflexivity | assumption].
    + intros [= <- <-] _. exists [], r, rs, st, [].
      split; [reflexivity|]. split; [reflexivity|]. split; [reflexivity|].
      now rewrite Hit.
    + intros [= <- <-] _. exists [], r, rs, st, [].
      split; [reflexivity|]. split; [reflexivity|]. split; [reflexivity|].
      now rewrite Hit.
Qed.

Lemma records_falsy items backoff :
  truthy items = false -> records (Page items backoff) = [].
Proof.
  destruct items as [| | |[]|[]|[]]; simpl; try reflexivity; discriminate.
Qed.

Lemma pages_nonneg rs : 0 <= pages rs.
Proof. induction rs as [|[] rs IH]; simpl; lia. Qed.

(** While the loop runs, it has made at most three requests per page
    received, plus the failures since the last page. *)
Lemma waiting_budget bs rs : forall st tr,
  fetch_all_items bs rs = (Waiting st, tr) ->
  Z.of_nat (length rs) <= 3 * pages rs + retry_count st.
Proof.
  unfold fetch_all_items.
  induction rs as [|r rs IH] using rev_ind; intros st tr.
  - intros [= <- _]. simpl. lia.
  - intros (st1 & tr1 & d & Hrun & Hit & _)%loop_last.
    specialize (IH _ _ Hrun).
    destruct (loop_invariant _ _ _ _ _ Hrun) as (_ & _ & _ & Hlt).
    rewrite length_app, pages_app. simpl. destruct r as [|items b].
    + apply iteration_failure in Hit as (_ & _ & -> & _). simpl. lia.
    + apply iteration_page in Hit as (_ & _ & ->). simpl. lia.
Qed.

(** The offsets of a run that starts from any state. *)
Lemma loop_offsets bs rs : forall st i o,
  offsets (loop bs st rs).2 !! i = Some o ->
  o = start st + bs * pages (take i rs).
Proof.
  induction rs as [|r rs IH]; intros st i o; simpl.
  - destruct i; discriminate.
  - destruct (iteration bs st r) as [st1 d | items | e] eqn:Hit.
    + specialize (IH st1). destruct (loop bs st1 rs) as [res tr1]. simpl in *.
      destruct i as [|i]; simpl.
      * intros [= <-]. lia.
      * intros Hi. rewrite (IH _ _ Hi). destruct r as [|items b].
        -- apply iteration_failure in Hit as (_ & -> & _). reflexivity.
        -- apply iteration_page in Hit as (_ & -> & _). lia.
    + destruct i as [|[|i]]; simpl; try discriminate. intros [= <-]. lia.
    + destruct i as [|[|i]]; simpl; try discriminate. intros [= <-]. lia.
Qed.

End Loop.

End FetchMore.

(** X7: when [fetch_all_items] returns, be it at an empty page or at
    the third failure in a row, its result is the records of the pages
    it received, in the order received: failures in between lose and
    repeat nothing. *)
Theorem fetch_all_items_returns_pages
    (sleep_error : Z -> option exn)
    (batch_size : Z) (responses : list Fetch.response)
    (items : list pyval) (trace : list Fetch.event) :
  Fetch.fetch_all_items sleep_error batch_size responses = (Fetch.Returned items, trace) ->
  (FetchSpec.requests trace <= length responses)%nat /\
  items = FetchSpec.fetched (take (FetchSpec.requests trace) responses).
Proof.
  intros Hrun. unfold Fetch.fetch_all_items in Hrun.
  destruct (FetchMore.loop_ended _ _ _ _ _ _ Hrun)
    as (pre & r & rest & st1 & tr1 & -> & Hpre & -> & Hend);
    [discriminate|].
  rewrite FetchMore.requests_app, (FetchMore.waiting_requests _ _ _ _ _ _ Hpre).
  simpl. rewrite length_app. simpl. split; [lia|].
  replace (length pre + 1)%nat with (length (pre ++ [r]))
    by (rewrite length_app; reflexivity).
  rewrite (cons_middle r pre rest), app_assoc, take_app_length.
  rewrite FetchFacts.fetched_app.
  destruct (FetchFacts.loop_invariant _ _ _ _ _ Hpre) as (Hall & _).
  rewrite <- Hall. unfold FetchSpec.fetched at 1. simpl. rewrite app_nil_r.
  destruct r as [|page backoff]; simpl in Hend.
  - unfold Fetch.max_retries in Hend.
    destruct (Fetch.retry_count st1 + 1 >=? 3); [|contradiction].
    injection Hend as ->. now rewrite app_nil_r.
  - destruct (truthy page) eqn:Ht; simpl in Hend.
    + destruct (py_iter page); [|discriminate].
      destruct backoff as [[n|]|]; try discriminate; try contradiction.
      destruct (n <? 0); [discriminate|].
      destruct (sleep_error n); [discriminate | contradiction].
    + injection Hend as ->.
      rewrite (FetchMore.records_falsy _ _ Ht). now rewrite app_nil_r.
Qed.

Lemma fetch_all_items_returns_pages_witness :
  (4 <= 5)%nat /\
  [PInt 1; PInt 2] =
  FetchSpec.fetched
    (take 4 [ Fetch.RequestException; Fetch.RequestException;
              Fetch.Page (PList [PInt 1; PInt 2]) None;
              Fetch.Page (PList []) None; Fetch.RequestException ]).
Proof.
  exact (fetch_all_items_returns_pages Fetch.sleep_error_64 100
           [ Fetch.RequestException; Fetch.RequestException;
             Fetch.Page (PList [PInt 1; PInt 2]) None;
             Fetch.Page (PList []) None; Fetch.RequestException ]
           [PInt 1; PInt 2]
           [ Fetch.Get 0; Fetch.Sleep (Fetch.Seconds 2);
             Fetch.Get 0; Fetch.Sleep (Fetch.Seconds 4);
             Fetch.Get 0; Fetch.Sleep Fetch.HalfSecond;
             Fetch.Get 100 ]
           eq_refl).
Defined.



(** X9: [fetch_all_items] makes at most three requests for each page
    it receives, and at most three more. *)
Theorem fetch_all_items_request_budget
    (sleep_error : Z -> option exn)
    (batch_size : Z) (responses : list Fetch.response) :
  Z.of_nat (FetchSpec.requests (Fetch.fetch_all_items sleep_error batch_size responses).2)
  <= 3 * (FetchSpec.pages responses + 1).
Proof.
  destruct (Fetch.fetch_all_items sleep_error batch_size responses) as [res tr] eqn:Hrun.
  simpl. destruct res as [items | e | st].
  - unfold Fetch.fetch_all_items in Hrun.
    destruct (FetchMore.loop_ended _ _ _ _ _ _ Hrun)
      as (pre & r & rest & st1 & tr1 & -> & Hpre & -> & _); [discriminate|].
    pose proof (FetchMore.waiting_budget _ _ _ _ _ Hpre) as Hb.
    destruct (FetchFacts.loop_invariant _ _ _ _ _ Hpre) as (_ & _ & _ & Hlt).
    rewrite FetchMore.requests_app, (FetchMore.waiting_requests _ _ _ _ _ _ Hpre).
    rewrite FetchFacts.pages_app. simpl.
    pose proof (FetchMore.pages_nonneg rest). destruct r; lia.
  - unfold Fetch.fetch_all_items in Hrun.
    destruct (FetchMore.loop_ended _ _ _ _ _ _ Hrun)
      as (pre & r & rest & st1 & tr1 & -> & Hpre & -> & _); [discriminate|].
    pose proof (FetchMore.waiting_budget _ _ _ _ _ Hpre) as Hb.
    destruct (FetchFacts.loop_invariant _ _ _ _ _ Hpre) as (_ & _ & _ & Hlt).
    rewrite FetchMore.requests_app, (FetchMore.waiting_requests _ _ _ _ _ _ Hpre).
    rewrite FetchFacts.pages_app. simpl.
    pose proof (FetchMore.pages_nonneg rest). destruct r; lia.
  - pose proof (FetchMore.waiting_budget _ _ _ _ _ Hrun) as Hb.
    destruct (FetchFacts.loop_invariant _ _ _ _ _ Hrun) as (_ & _ & _ & Hlt).
    unfold Fetch.fetch_all_items in Hrun.
    rewrite (FetchMore.waiting_requests _ _ _ _ _ _ Hrun). lia.
Qed.

(** X10: every request is made at the offset that is the page size
    times the number of pages received before it: no offset is skipped,
    and an offset is left only by a page. *)
Theorem fetch_all_items_offsets
    (sleep_error : Z -> option exn)
    (batch_size : Z) (responses : list Fetch.response) (i : nat) (o : Z) :
  FetchTrace.offsets (Fetch.fetch_all_items sleep_error batch_size responses).2 !! i = Some o ->
  o = batch_size * FetchSpec.pages (take i responses).
Proof.
  intros H. apply FetchMore.loop_offsets in H. simpl in H. lia.
Qed.

Lemma fetch_all_items_offsets_witness :
  200 = 100 * FetchSpec.pages
          (take 4 [ Fetch.Page (PList [PInt 1]) None; Fetch.RequestException;
                    Fetch.Page (PList [PInt 2]) None; Fetch.RequestException;
                    Fetch.Page (PList []) None ]).
Proof.
  exact (fetch_all_items_offsets Fetch.sleep_error_64 100
           [ Fetch.Page (PList [PInt 1]) None; Fetch.RequestException;
             Fetch.Page (PList [PInt 2]) None; Fetch.RequestException;
             Fetch.Page (PList []) None ]
           4 200 eq_refl).
Defined.

(* ================================================================== *)
(** * More on [process_publications] *)
(* ================================================================== *)

Module ProcessMore.
Import ProcessSpec SortSpec LoopSpec ProcessFacts DistributionSpec.

Section Tables.
Context {U : Text.Unicode}.

Lemma untitled_nonneg items : 0 <= untitled items.
Proof.
  induction items as [|e items IH]; simpl; [lia|].
  unfold is_untitled. case_bool_decide; lia.
Qed.

Lemma repeats_nonneg items : forall seen, 0 <= repeats seen items.
Proof.
  induction items as [|e items IH]; intros seen; simpl; [lia|].
  specialize (IH (seen ++ [e])). unfold is_repeat.
  destruct (title_of e); [case_bool_decide|]; lia.
Qed.

Lemma entry_title_trimmed entry data title :
  entry_title entry = Ok (data, title) -> Text.strip title = title.
Proof.
  unfold entry_title.
  destruct (py_get entry (lit "data") (PDict [])) as [d|]; [|discriminate].
  cbn [bind]. destruct (py_get d (lit "title") (PStr [])) as [t|]; [|discriminate].
  cbn [bind]. destruct t; try discriminate. cbn [py_strip bind].
  intros [= _ <-]. apply StripFacts.strip_idemp.
Qed.

Lemma assign_region_names title : assign_region title ∈ RegionNames.names.
Proof.
  unfold assign_region, RegionNames.names.
  destruct (Text.is_empty title); [set_solver|]. cbv zeta.
  repeat match goal with
         | |- context [if ?b then _ else _] => destruct b
         end; set_solver.
Qed.

Section More.
Variable f : pyval -> str.

Lemma build_pub_fields data title p :
  build_pub f data title = Ok p ->
  (exists d, Pub.year p = extract_year f d) /\
  Pub.region p = assign_region title.
Proof.
  unfold build_pub.
  repeat match goal with
         | |- context [bind ?r _] =>
             destruct r; cbn [bind]; [|discriminate]
         end.
  intros [= <-]. simpl. eauto.
Qed.

(** Records whose titles are all in the set change neither the list nor
    the set. *)
Lemma process_seen more : forall st,
  (forall entry title, entry ∈ more -> title_of entry = Some title ->
                       title <> [] -> title ∈ duplicate_checker st) ->
  filtered_publications (foldl (process_entry f) st more) =
  filtered_publications st /\
  duplicate_checker (foldl (process_entry f) st more) = duplicate_checker st.
Proof.
  induction more as [|entry more IH]; intros st Hseen; simpl; [auto|].
  assert (Hkeep : filtered_publications (process_entry f st entry) =
                  filtered_publications st /\
                  duplicate_checker (process_entry f st entry) =
                  duplicate_checker st).
  { destruct (process_entry_fate f st entry)
      as [Hmal | Hun | title Ht Hne Hin | data title pub He Hne Hnew Hb
          | data title e He Hne Hnew Hb]; simpl; auto.
    - exfalso. apply Hnew, (Hseen entry); [left | | assumption].
      apply title_of_Some. now exists data.
    - exfalso. apply Hnew, (Hseen entry); [left | | assumption].
      apply title_of_Some. now exists data. }
  destruct Hkeep as [Hp Hd].
  destruct (IH (process_entry f st entry)) as [Hp' Hd'].
  - intros e t Hin Ht Hne. rewrite Hd. apply (Hseen e); [now right | assumption..].
  - split; congruence.
Qed.

(** The error count rides along: more errors at the start are more
    errors at the end, and nothing else changes. *)
Lemma process_entry_shift st k entry :
  process_entry f
    (with_state (filtered_publications st) (duplicate_checker st)
                (errors st + k)) entry =
  with_state (filtered_publications (process_entry f st entry))
             (duplicate_checker (process_entry f st entry))
             (errors (process_entry f st entry) + k).
Proof.
  unfold process_entry, with_state. simpl.
  destruct (entry_title entry) as [[data title]|]; simpl.
  - destruct (Text.is_empty title); [reflexivity|].
    case_bool_decide; [reflexivity|].
    destruct (build_pub f data title); simpl; [reflexivity|].
    f_equal. lia.
  - f_equal. lia.
Qed.

Lemma process_fold_shift more : forall st k,
  foldl (process_entry f)
    (with_state (filtered_publications st) (duplicate_checker st)
                (errors st + k)) more =
  with_state (filtered_publications (foldl (process_entry f) st more))
             (duplicate_checker (foldl (process_entry f) st more))
             (errors (foldl (process_entry f) st more) + k).
Proof.
  induction more as [|entry more IH]; intros st k; simpl; [reflexivity|].
  rewrite process_entry_shift. apply IH.
Qed.

Lemma process_loop_malformed l1 entry l2 :
  title_of entry = None ->
  process_loop f (l1 ++ entry :: l2) =
  with_state (filtered_publications (process_loop f (l1 ++ l2)))
             (duplicate_checker (process_loop f (l1 ++ l2)))
             (errors (process_loop f (l1 ++ l2)) + 1).
Proof.
  intros Hmal. unfold process_loop. rewrite !foldl_app. simpl.
  rewrite <- process_fold_shift. f_equal.
  unfold process_entry, title_of in *.
  now destruct (entry_title entry) as [[data title]|].
Qed.

End More.

End Tables.

(** ** Counting by region *)

Lemma count_fold pubs : forall (m : gmap str Z) r,
  foldl count_region m pubs !! r =
  if decide (in_region r pubs = 0) then m !! r
  else Some (default 0 (m !! r) + in_region r pubs).
Proof.
  unfold in_region.
  induction pubs as [|p pubs IH]; intros m r; simpl; [reflexivity|].
  rewrite IH, filter_cons. unfold count_region.
  destruct (decide (Pub.region p = r)) as [-> | Hne].
  - rewrite lookup_insert_eq. simpl.
    repeat case_decide; try lia; f_equal; lia.
  - now rewrite lookup_insert_ne.
Qed.

Lemma indicator_sum (x : str) (names : list str) :
  NoDup names ->
  foldr (fun r acc => (if decide (x = r) then 1 else 0) + acc) 0 names =
  if decide (x ∈ names) then 1 else 0.
Proof.
  induction 1 as [|r names Hr _ IH]; simpl.
  - reflexivity.
  - rewrite IH. destruct (decide (x = r)) as [-> | Hne].
    + destruct (decide (r ∈ names)); [contradiction|].
      destruct (decide (r ∈ r :: names)) as [|Hn]; [lia|].
      exfalso. apply Hn. left.
    + destruct (decide (x ∈ names)) as [Hin | Hin].
      * destruct (decide (x ∈ r :: names)) as [|Hn]; [lia|].
        exfalso. apply Hn. now right.
      * destruct (decide (x ∈ r :: names)) as [Hc|]; [|lia].
        apply elem_of_cons in Hc as [? | ?]; contradiction.
Qed.

Lemma in_region_sum (names : list str) (pubs : list Pub.t) :
  NoDup names ->
  Forall (fun p => Pub.region p ∈ names) pubs ->
  foldr (fun r acc => in_region r pubs + acc) 0 names = Z.of_nat (length pubs).
Proof.
  intros Hnd. induction 1 as [|p pubs Hp _ IH].
  - unfold in_region. simpl. induction names; simpl; [reflexivity|].
    apply NoDup_cons in Hnd as [_ Hnd]. now rewrite IHnames.
  - assert (Hsplit : forall ns,
              foldr (fun r acc => in_region r (p :: pubs) + acc) 0 ns =
              foldr (fun r acc => (if decide (Pub.region p = r) then 1 else 0) + acc) 0 ns
              + foldr (fun r acc => in_region r pubs + acc) 0 ns).
    { induction ns as [|r ns IHns]; simpl; [reflexivity|].
      rewrite IHns. unfold in_region. rewrite filter_cons.
      destruct (decide (Pub.region p = r)); simpl length; lia. }
    rewrite Hsplit, IH, (indicator_sum _ _ Hnd).
    destruct (decide (Pub.region p ∈ names)); [|contradiction].
    simpl length. lia.
Qed.

Lemma names_NoDup : NoDup RegionNames.names.
Proof.
  apply (bool_decide_unpack _). vm_compute. exact I.
Qed.

(** ** The ends of a list of numbers *)

Lemma foldl_min_spec l : forall x,
  foldl Z.min x l ∈ x :: l /\ Forall (fun y => foldl Z.min x l <= y) (x :: l).
Proof.
  induction l as [|z l IH]; intros x; simpl.
  - split; [left | repeat constructor; lia].
  - destruct (IH (Z.min x z)) as [Hin Hle]. split.
    + apply elem_of_cons in Hin as [-> | Hin].
      * destruct (Z.min_spec x z) as [[_ ->] | [_ ->]];
          [left | right; left].
      * right. now right.
    + inversion Hle as [|? ? Hx Hl]; subst.
      constructor; [lia|]. constructor; [lia | assumption].
Qed.

Lemma foldl_max_spec l : forall x,
  foldl Z.max x l ∈ x :: l /\ Forall (fun y => y <= foldl Z.max x l) (x :: l).
Proof.
  induction l as [|z l IH]; intros x; simpl.
  - split; [left | repeat constructor; lia].
  - destruct (IH (Z.max x z)) as [Hin Hle]. split.
    + apply elem_of_cons in Hin as [-> | Hin].
      * destruct (Z.max_spec x z) as [[_ ->] | [_ ->]];
          [right; left | left].
      * right. now right.
    + inversion Hle as [|? ? Hx Hl]; subst.
      constructor; [lia|]. constructor; [lia | assumption].
Qed.

End ProcessMore.

Module ProcessOutput.
Import ProcessSpec SortSpec LoopSpec ProcessFacts ProcessMore DistributionSpec.

Section Output.
Context {U : Text.Unicode}.
Variable f : pyval -> str.

Lemma output_descending items :
  descending sort_key (process_publications f items).1.
Proof. apply (SortFacts.sort_desc_descending sort_key). Qed.

Lemma output_from items p :
  p ∈ (process_publications f items).1 ->
  exists entry data,
    entry_title entry = Ok (data, Pub.title p) /\
    build_pub f data (Pub.title p) = Ok p.
Proof.
  intros Hp%ProcessResults.output_elem.
  destruct (inv_from f _ _ (process_loop_invariant f items) p Hp)
    as [_ (a & entry & data & _ & _ & He & Hb)].
  now exists entry, data.
Qed.

Lemma output_regions items :
  Forall (fun p => Pub.region p ∈ RegionNames.names)
    (process_publications f items).1.
Proof.
  apply Forall_forall. intros p (entry & data & _ & Hb)%output_from.
  destruct (build_pub_fields f _ _ _ Hb) as [_ ->].
  apply assign_region_names.
Qed.

Lemma output_years items p y :
  p ∈ (process_publications f items).1 -> Pub.year p = Some y ->
  0 <= y <= 9999.
Proof.
  intros (entry & data & _ & Hb)%output_from Hy.
  destruct (build_pub_fields f _ _ _ Hb) as [[d Hd] _].
  rewrite Hd in Hy. unfold extract_year, Regex.re_search_year in Hy.
  destruct (negb (truthy d)); [discriminate|].
  destruct (Regex.search None (py_str f d)) as [m|] eqn:E; [|discriminate].
  injection Hy as <-. now apply (HelperFacts.search_in_range None (py_str f d)).
Qed.

Lemma first_index_elem items entry title :
  entry ∈ items -> title_of entry = Some title ->
  is_Some (first_index title items).
Proof.
  induction items as [|e items IH]; intros Hin Ht.
  - now apply elem_of_nil in Hin.
  - simpl. case_bool_decide as He; [now eexists|].
    apply elem_of_cons in Hin as [-> | Hin]; [contradiction|].
    destruct (IH Hin Ht) as [a Ha]. rewrite Ha. now eexists.
Qed.

End Output.

End ProcessOutput.

(** X11: the three figures of the report are never negative and add up
    to the number of input records; in particular the "duplicates
    removed" figure cannot be negative. *)
Theorem process_publications_report_adds_up
    {U : Text.Unicode} (f : pyval -> str) (items : list pyval) :
  let rep := (process_publications f items).2 in
  0 <= successfully_processed rep /\
  0 <= errors_encountered rep /\
  0 <= duplicates_removed rep /\
  successfully_processed rep + errors_encountered rep + duplicates_removed rep
  = Z.of_nat (length items).
Proof.
  intros rep.
  pose proof (LoopSpec.inv_count f _ _
                (ProcessFacts.process_loop_invariant f items)) as Hc.
  pose proof (LoopSpec.inv_errors f _ _
                (ProcessFacts.process_loop_invariant f items)) as He.
  rewrite <- (ProcessResults.output_length f items) in Hc.
  pose proof (ProcessMore.untitled_nonneg items).
  pose proof (ProcessMore.repeats_nonneg items []).
  change (successfully_processed rep)
    with (Z.of_nat (length (process_publications f items).1)).
  change (errors_encountered rep) with (errors (process_loop f items)).
  change (duplicates_removed rep)
    with (Z.of_nat (length items)
          - Z.of_nat (length (process_publications f items).1)
          - errors (process_loop f items)).
  lia.
Qed.

(** X12: records whose titles all occur in the input already add no
    publication and change none: appended to the input, they leave the
    returned list as it is.  So does the whole input, fed a second
    time. *)
Theorem process_publications_seen_again
    {U : Text.Unicode} (f : pyval -> str) (items more : list pyval) :
  (forall entry title,
      entry ∈ more -> ProcessSpec.title_of entry = Some title -> title <> [] ->
      is_Some (ProcessSpec.first_index title items)) ->
  (process_publications f (items ++ more)).1 = (process_publications f items).1 /\
  (process_publications f (items ++ items)).1 = (process_publications f items).1.
Proof.
  assert (Hgen : forall more',
    (forall entry title,
        entry ∈ more' -> ProcessSpec.title_of entry = Some title -> title <> [] ->
        is_Some (ProcessSpec.first_index title items)) ->
    (process_publications f (items ++ more')).1 = (process_publications f items).1).
  { intros more' Hseen. unfold process_publications. simpl.
    unfold process_loop. rewrite foldl_app.
    destruct (ProcessMore.process_seen f more' (foldl (process_entry f) pinitial items))
      as [-> _]; [|reflexivity].
    intros entry title Hin Ht Hne.
    apply (LoopSpec.inv_seen f _ _ (ProcessFacts.process_loop_invariant f items)).
    split; [assumption|]. now apply (Hseen entry). }
  intros Hseen. split; [now apply Hgen|].
  apply Hgen. intros entry title Hin Ht _.
  now apply (ProcessOutput.first_index_elem items entry).
Qed.

Lemma process_publications_seen_again_witness :
  (process_publications (U := Text.basic) (fun _ => [])
     (Samples.items ++ [Samples.record "REEF FISH" "1990"; Samples.record "Reef fish " "1990"])).1
  = (process_publications (U := Text.basic) (fun _ => [])
       (Samples.items ++ [Samples.record "REEF FISH" "1990"])).1.
Proof.
  refine (proj1 (process_publications_seen_again (U := Text.basic) (fun _ => [])
                   (Samples.items ++ [Samples.record "REEF FISH" "1990"])
                   [Samples.record "Reef fish " "1990"] _)).
  intros entry title Hin%list_elem_of_singleton Ht _. subst entry.
  injection Ht as <-. now exists 0%nat.
Defined.

(** X13: a record that is no dict, or whose data is no dict, or whose
    title is no string, costs one error and nothing else: without it
    the returned list and the "duplicates removed" figure are the same,
    and the error count is one less. *)
Theorem process_publications_malformed_record
    {U : Text.Unicode} (f : pyval -> str) (l1 : list pyval) (entry : pyval) (l2 : list pyval) :
  ProcessSpec.title_of entry = None ->
  (process_publications f (l1 ++ entry :: l2)).1 =
    (process_publications f (l1 ++ l2)).1 /\
  errors_encountered (process_publications f (l1 ++ entry :: l2)).2 =
    errors_encountered (process_publications f (l1 ++ l2)).2 + 1 /\
  duplicates_removed (process_publications f (l1 ++ entry :: l2)).2 =
    duplicates_removed (process_publications f (l1 ++ l2)).2.
Proof.
  intros Hmal. unfold process_publications. simpl.
  rewrite (ProcessMore.process_loop_malformed f _ _ _ Hmal). simpl.
  split; [reflexivity|]. split; [reflexivity|].
  rewrite !length_app. simpl. lia.
Qed.

Lemma process_publications_malformed_record_witness :
  (process_publications (U := Text.basic) (fun _ => [])
     ([Samples.record "Reef fish" "2001"] ++ PStr (lit "oops") :: [Samples.record "Guam" "2011"])).1
  = (process_publications (U := Text.basic) (fun _ => [])
       ([Samples.record "Reef fish" "2001"] ++ [Samples.record "Guam" "2011"])).1.
Proof.
  exact (proj1 (process_publications_malformed_record (U := Text.basic) (fun _ => [])
                  [Samples.record "Reef fish" "2001"] (PStr (lit "oops"))
                  [Samples.record "Guam" "2011"] eq_refl)).
Defined.

(** X14: in every publication of the output the title is trimmed, the
    year, when there is one, lies between 0 and 9999, and the region is
    one of the six region names. *)
Theorem process_publications_fields
    {U : Text.Unicode} (f : pyval -> str) (items : list pyval) :
  Forall (fun p =>
            Text.strip (Pub.title p) = Pub.title p /\
            (forall y, Pub.year p = Some y -> 0 <= y <= 9999) /\
            Pub.region p ∈ RegionNames.names)
    (process_publications f items).1.
Proof.
  apply Forall_forall. intros p Hp. split; [|split].
  - destruct (ProcessOutput.output_from f _ _ Hp) as (entry & data & He & _).
    now apply ProcessMore.entry_title_trimmed in He.
  - intros y. now apply (ProcessOutput.output_years f items).
  - pose proof (ProcessOutput.output_regions f items) as Hr.
    rewrite Forall_forall in Hr. now apply Hr.
Qed.

(** X15: the region distribution holds, for a region, the number of
    publications of the list with that region, and holds nothing for a
    region without publication; on the list [process_publications]
    returns, the counts of the six region names add up to the length of
    the list. *)
Theorem region_distribution_counts :
  (forall pubs r n,
      region_distribution pubs !! r = Some n <->
      0 < n /\ n = DistributionSpec.in_region r pubs) /\
  (forall (U : Text.Unicode) f items,
      DistributionSpec.total
        (region_distribution (process_publications f items).1) =
      Z.of_nat (length (process_publications f items).1)).
Proof.
  assert (Hlookup : forall pubs r,
            default 0 (region_distribution pubs !! r) =
            DistributionSpec.in_region r pubs /\
            (region_distribution pubs !! r = None <->
             DistributionSpec.in_region r pubs = 0)).
  { intros pubs r. unfold region_distribution.
    rewrite ProcessMore.count_fold, lookup_empty. simpl.
    case_decide as E; simpl; split; try lia; split; try discriminate; auto.
    intros; lia. }
  split.
  - intros pubs r n. destruct (Hlookup pubs r) as [Hd Hn].
    assert (0 <= DistributionSpec.in_region r pubs)
      by (unfold DistributionSpec.in_region; lia).
    destruct (region_distribution pubs !! r) as [c|] eqn:E; simpl in Hd.
    + split.
      * intros [= <-]. split; [|assumption].
        destruct (decide (c = 0)) as [-> | ?]; [|lia].
        symmetry in Hd. apply Hn in Hd. discriminate.
      * intros [_ ->]. now rewrite Hd.
    + split; [discriminate|]. intros [Hpos ->].
      assert (DistributionSpec.in_region r pubs = 0) by now apply Hn.
      lia.
  - intros U f items. unfold DistributionSpec.total.
    transitivity
      (foldr (fun r acc =>
                DistributionSpec.in_region r (process_publications f items).1 + acc)
             0 RegionNames.names).
    + generalize RegionNames.names as ns.
      induction ns as [|r ns IH]; cbn [foldr]; [reflexivity|].
      rewrite IH.
      now destruct (Hlookup (process_publications f items).1 r) as [-> _].
    + apply ProcessMore.in_region_sum.
      * apply ProcessMore.names_NoDup.
      * apply ProcessOutput.output_regions.
Qed.
(* ================================================================== *)
(** * More on [main] *)
(* ================================================================== *)

Module MainFacts.
Import ProcessSpec SortSpec LoopSpec ProcessFacts ProcessMore MainRun.

Section Main.
Context {U : Text.Unicode}.
Variable f : pyval -> str.

Lemma output_titles_NoDup items :
  NoDup (Pub.title <$> (process_publications f items).1).
Proof.
  rewrite ProcessResults.output_perm.
  apply (titles_NoDup _ items).
  apply (inv_order f _ _ (process_loop_invariant f items)).
Qed.

Lemma output_well_formed items :
  Forall well_formed (process_publications f items).1.
Proof.
  apply Forall_forall. intros p (entry & data & _ & Hb)%ProcessOutput.output_from.
  now destruct (build_pub_Ok f _ _ _ Hb).
Qed.

End Main.

Lemma sort_key_year p y : Pub.year p = Some y -> y <> 0 -> sort_key p = y.
Proof.
  intros Hy Hne. unfold sort_key. rewrite Hy.
  destruct (y =? 0) eqn:E; [lia | reflexivity].
Qed.

Lemma sort_key_nonzero p :
  sort_key p <> 0 -> Pub.year p = Some (sort_key p).
Proof.
  unfold sort_key. destruct (Pub.year p) as [y|]; [|contradiction].
  destruct (y =? 0); [contradiction | reflexivity].
Qed.

Lemma years_elem pubs y :
  y ∈ years pubs <-> exists p, p ∈ pubs /\ Pub.year p = Some y /\ y <> 0.
Proof.
  unfold years. rewrite list_elem_of_omap. split.
  - intros (p & Hp & Hy). exists p. split; [assumption|].
    destruct (Pub.year p) as [k|]; [|discriminate].
    destruct (k =? 0) eqn:E; [discriminate|]. injection Hy as <-.
    split; [reflexivity | lia].
  - intros (p & Hp & Hy & Hne). exists p. split; [assumption|].
    rewrite Hy. destruct (y =? 0) eqn:E; [lia | reflexivity].
Qed.

End MainFacts.

(** X16: [main] calls [export_publications] only with a list that is
    not empty, sorted by decreasing year, with pairwise different titles
    and well-formed fields, made from a fetch that returned; it returns
    1 before exporting exactly when the fetch returned and no record
    gave a publication; it exits, with status 1 and before any request,
    only when the API key, the group id or the collection key is
    missing. *)
Theorem main_outcomes
    {U : Text.Unicode} (sleep_error : Z -> option exn)
    (f : pyval -> str) (a : Main.parsed_args)
    (responses : list Fetch.response) :
  (forall pubs covered,
      MainRun.main sleep_error f a responses = MainRun.Exports pubs covered ->
      pubs <> [] /\
      SortSpec.descending sort_key pubs /\
      NoDup (Pub.title <$> pubs) /\
      Forall ProcessSpec.well_formed pubs /\
      covered = MainRun.years_covered pubs /\
      exists all_items trace,
        Fetch.fetch_all_items sleep_error 100 responses = (Fetch.Returned all_items, trace) /\
        pubs = (process_publications f all_items).1) /\
  (forall status,
      MainRun.main sleep_error f a responses = MainRun.Returns status <->
      status = 1 /\
      (exists url, Main.main_endpoint a = Main.FetchFrom url) /\
      exists all_items trace,
        Fetch.fetch_all_items sleep_error 100 responses = (Fetch.Returned all_items, trace) /\
        (process_publications f all_items).1 = []) /\
  (forall status,
      MainRun.main sleep_error f a responses = MainRun.SysExit status ->
      status = 1 /\
      (Main.missing (Main.api_key a) = true \/
       Main.missing (Main.group_id a) = true \/
       Main.missing (Main.collection_key a) = true)).
Proof.
  unfold MainRun.main. split; [|split].
  - intros pubs covered.
    destruct (Main.main_endpoint a) as [status | url]; [discriminate|].
    destruct (Fetch.fetch_all_items sleep_error 100 responses) as [[all_items | e | st] trace];
      [|discriminate..].
    destruct all_items as [|entry all_items]; [discriminate|].
    destruct (process_publications f (entry :: all_items)).1 as [|p out] eqn:E;
      [discriminate|].
    intros [= <- <-]. rewrite <- E.
    split; [rewrite E; discriminate|].
    split; [apply ProcessOutput.output_descending|].
    split; [apply MainFacts.output_titles_NoDup|].
    split; [apply MainFacts.output_well_formed|].
    split; [reflexivity|]. now exists (entry :: all_items), trace.
  - intros status. split.
    + destruct (Main.main_endpoint a) as [s | url]; [discriminate|].
      destruct (Fetch.fetch_all_items sleep_error 100 responses) as [[all_items | e | st] trace];
        [|discriminate..].
      destruct all_items as [|entry all_items].
      * intros [= <-]. split; [reflexivity|]. split; [now exists url|].
        now exists [], trace.
      * destruct (process_publications f (entry :: all_items)).1 as [|p out] eqn:E;
          [|discriminate].
        intros [= <-]. split; [reflexivity|]. split; [now exists url|].
        now exists (entry :: all_items), trace.
    + intros (-> & [url ->] & all_items & trace & -> & Hnone).
      destruct all_items as [|entry all_items]; [reflexivity|].
      now rewrite Hnone.
  - intros status. destruct (Main.main_endpoint a) as [s | url] eqn:Hend.
    + intros [= <-]. revert Hend. unfold Main.main_endpoint.
      destruct (Main.missing (Main.api_key a)); [intros [= <-]; auto|].
      destruct (Main.missing (Main.group_id a)); [intros [= <-]; auto|].
      destruct (Main.missing (Main.collection_key a)); [intros [= <-]; auto|].
      destruct (negb false && _); discriminate.
    + destruct (Fetch.fetch_all_items sleep_error 100 responses)
        as [[[|entry all_items] | e | st] trace]; try discriminate.
      destruct (process_publications f (entry :: all_items)).1; discriminate.
Qed.

Lemma main_outcomes_witness :
  MainRun.main (U := Text.basic) Fetch.sleep_error_64 (fun _ => [])
    (Samples.args (Some "AB12CD34"%string))
    [ Fetch.Page (PList [PInt 1; PStr (lit "x")]) None;
      Fetch.Page (PList []) None ]
  = MainRun.Returns 1.
Proof.
  apply (proj2 (proj1 (proj2 (main_outcomes (U := Text.basic)
                  Fetch.sleep_error_64 (fun _ => [])
                  (Samples.args (Some "AB12CD34"%string))
                  [ Fetch.Page (PList [PInt 1; PStr (lit "x")]) None;
                    Fetch.Page (PList []) None ])) 1)).
  split; [reflexivity|]. split; [eexists; reflexivity|].
  eexists _, _. split; reflexivity.
Defined.

(** X17: on the list [process_publications] returns, the "Years
    covered" line runs from the smallest to the largest year that is
    present and not 0, both between 1 and 9999, and its upper end is
    the year of the first publication of the list. *)
Theorem years_covered_of_output
    {U : Text.Unicode} (f : pyval -> str) (items : list pyval) (lo hi : Z) :
  MainRun.years_covered (process_publications f items).1 = Some (lo, hi) ->
  1 <= lo <= hi /\ hi <= 9999 /\
  (exists p rest,
      (process_publications f items).1 = p :: rest /\ Pub.year p = Some hi) /\
  (exists p, p ∈ (process_publications f items).1 /\ Pub.year p = Some lo) /\
  (forall p y,
      p ∈ (process_publications f items).1 -> Pub.year p = Some y -> y <> 0 ->
      lo <= y <= hi).
Proof.
  unfold MainRun.years_covered.
  pose proof (ProcessOutput.output_descending f items) as Hdesc.
  pose proof (fun p y => ProcessOutput.output_years f items p y) as Hrange.
  pose proof (MainFacts.years_elem (process_publications f items).1) as Helem.
  destruct (MainRun.years (process_publications f items).1) as [|y0 ys] eqn:E;
    [discriminate|].
  intros [= <- <-].
  destruct (ProcessMore.foldl_min_spec ys y0) as [Hlo_in Hlo].
  destruct (ProcessMore.foldl_max_spec ys y0) as [Hhi_in Hhi].
  rewrite Forall_forall in Hlo, Hhi.
  apply Helem in Hlo_in as (plo & Hplo & Hylo & Hnlo).
  pose proof Hhi_in as Hhi_in'.
  apply Helem in Hhi_in as (phi & Hphi & Hyhi & Hnhi).
  pose proof (Hrange _ _ Hplo Hylo). pose proof (Hrange _ _ Hphi Hyhi).
  assert (Hle : foldl Z.min y0 ys <= foldl Z.max y0 ys) by (now apply Hlo).
  split; [lia|]. split; [lia|]. split; [|split].
  - destruct (process_publications f items).1 as [|p rest] eqn:Eout.
    { now apply elem_of_nil in Hphi. }
    exists p, rest. split; [reflexivity|].
    assert (Hkey : foldl Z.max y0 ys <= sort_key p).
    { rewrite <- (MainFacts.sort_key_year _ _ Hyhi Hnhi).
      apply elem_of_cons in Hphi as [-> | Hphi]; [lia|].
      unfold SortSpec.descending in Hdesc.
      apply StronglySorted_inv in Hdesc as [_ Hall].
      rewrite Forall_forall in Hall. now apply Hall. }
    assert (Hp : Pub.year p = Some (sort_key p))
      by (apply MainFacts.sort_key_nonzero; lia).
    assert (Hin : sort_key p ∈ y0 :: ys).
    { apply Helem. exists p. split; [left|]. split; [assumption | lia]. }
    apply Hhi in Hin. rewrite Hp. f_equal. lia.
  - now exists plo.
  - intros p y Hp Hy Hne.
    assert (Hin : y ∈ y0 :: ys) by (apply Helem; now exists p).
    split; [now apply Hlo | now apply Hhi].
Qed.

Lemma years_covered_of_output_witness :
  1 <= 2001 <= 2011 /\ 2011 <= 9999.
Proof.
  destruct (years_covered_of_output (U := Text.basic) (fun _ => []) Samples.items 2001 2011 eq_refl)
    as (H1 & H2 & _).
  exact (conj H1 H2).
Defined.

(* ================================================================== *)
(** * Dates written as one number *)
(* ================================================================== *)

Module DigitsFacts.
Import Text TextFacts Regex YearSpec DigitsSpec.

Section Tables.
Context {U : Unicode}.

Lemma all_digits_append s1 s2 :
  all_digits (s1 ++ s2) = all_digits s1 && all_digits s2.
Proof.
  induction s1 as [|c s1 IH]; simpl; [reflexivity|].
  now rewrite IH, andb_assoc.
Qed.

Lemma last_digit pre : forall prev,
  all_digits pre = true -> pre <> [] ->
  exists c, last prev pre = Some c /\ is_digit c = true.
Proof.
  induction pre as [|c pre IH]; intros prev Hd Hne; [contradiction|].
  simpl in *. apply andb_true_iff in Hd as [Hc Hpre].
  destruct pre as [|c' pre'].
  - now exists c.
  - apply (IH (Some c) Hpre). discriminate.
Qed.

(** In a string of digits, a run with an edge on both sides is the
    whole string. *)
Lemma four_digits_whole s i m :
  all_digits s = true -> four_digits_at is_word s i m -> s = m.
Proof.
  intros Hd (pre & post & d1 & d2 & d3 & d4 & -> & _ & Hm & _ & _ & _ & _ & Hl & Hr).
  rewrite !all_digits_append in Hd.
  apply andb_true_iff in Hd as [Hpre Hd]. apply andb_true_iff in Hd as [_ Hpost].
  destruct pre as [|c pre].
  - destruct post as [|c post]; [subst m; reflexivity|].
    simpl in Hr, Hpost. apply andb_true_iff in Hpost as [Hc _].
    rewrite (digit_is_word _ Hc) in Hr. discriminate.
  - destruct (last_digit (c :: pre) None Hpre) as (c' & Hc' & Hdig);
      [discriminate|].
    rewrite Hc' in Hl. simpl in Hl.
    rewrite (digit_is_word _ Hdig) in Hl. discriminate.
Qed.

End Tables.

End DigitsFacts.

(** X18: a date written as one number with more or fewer than four
    decimal digits, such as "20200301", gives no year. *)
Theorem extract_year_number_not_of_four_digits
    {U : Text.Unicode} (f : pyval -> str) (s : str) :
  DigitsSpec.all_digits s = true ->
  length s <> 4%nat ->
  extract_year f (PStr s) = None.
Proof.
  intros Hd Hlen. apply YearFacts.extract_year_None. intros i m Hat.
  pose proof (DigitsFacts.four_digits_whole _ _ _ Hd Hat) as ->.
  destruct Hat as (_ & _ & d1 & d2 & d3 & d4 & _ & _ & -> & _).
  simpl in Hlen. contradiction.
Qed.

Lemma extract_year_number_not_of_four_digits_witness :
  extract_year (U := Text.basic) (fun _ => []) (PStr (lit "20200301")) = None.
Proof.
  apply (extract_year_number_not_of_four_digits (U := Text.basic)
           (fun _ => []) (lit "20200301") eq_refl).
  discriminate.
Defined.

(* ================================================================== *)
(** * Text that is not ASCII *)
(* ================================================================== *)

(** The statements above hold whatever the Unicode tables are.  Here
    they are tried, with the tables of [Text.wider], on text with
    characters beyond ASCII. *)

(** An ideograph is a word character: in "2020" followed by the
    ideograph for year, "3", the one for month, "1" and the one for
    day, no run of four digits has an edge after it. *)
Example extract_year_ideographs :
  extract_year (U := Text.wider) (fun _ => [])
    (PStr (lit "2020" ++ [24180%N] ++ lit "3" ++ [26376%N] ++ lit "1"
           ++ [26085%N]))
  = None.
Proof. reflexivity. Qed.

(** The Arabic-Indic digits two, zero, two, zero are read as 2020. *)
Example extract_year_arabic_indic_digits :
  extract_year (U := Text.wider) (fun _ => [])
    (PStr [1634%N; 1632%N; 1634%N; 1632%N])
  = Some 2020.
Proof. reflexivity. Qed.

(** The capital A with macron is lower-cased, and the keyword with the
    small one is found. *)
Example assign_region_macron :
  assign_region (U := Text.wider)
    (lit "PAPAH" ++ [256%N] ++ lit "NAUMOKU" ++ [256%N]
     ++ lit "KEA Marine National Monument")
  = lit "Hawaiian Archipelago".
Proof. vm_compute. reflexivity. Qed.

(** A no-break space before the first name and an em space after the
    last name are trimmed. *)
Example clean_creators_no_break_space :
  clean_creators (U := Text.wider)
    (PList [PDict [(lit "firstName", PStr ([160%N] ++ lit "Jane"));
                   (lit "lastName", PStr (lit "Doe" ++ [8195%N]))]])
  = Ok (lit "Jane Doe").
Proof. vm_compute. reflexivity. Qed.

(** A first name that is a no-break space is no name. *)
Example clean_creators_only_no_break_space :
  clean_creators (U := Text.wider)
    (PList [PDict [(lit "firstName", PStr [160%N])]])
  = Ok [].
Proof. vm_compute. reflexivity. Qed.

(** Two titles that differ by a no-break space at the end are the same
    title: the second record is skipped. *)
Example process_publications_no_break_space :
  process_publications (U := Text.wider) (fun _ => [])
    [ PDict [(lit "data",
              PDict [(lit "title", PStr (lit "Reef fish" ++ [160%N]));
                     (lit "date", PStr (lit "2001"))])];
      Samples.record "Reef fish" "2005" ]
  = ([Samples.pub "Reef fish" 2001 "Unknown"],
     {| successfully_processed := 1;
        errors_encountered := 0;
        duplicates_removed := 1 |}).
Proof. vm_compute. reflexivity. Qed.

(** A Backoff header that asks for more seconds than the clock holds:
    the exception of [time.sleep] leaves the function, and the records
    received are not returned. *)
Example fetch_all_items_backoff_too_large :
  Fetch.fetch_all_items Fetch.sleep_error_64 100
    [ Fetch.Page (PList [PInt 1]) (Some (Some 99999999999999999999));
      Fetch.Page (PList []) None ]
  = (Fetch.Raised OverflowError, [Fetch.Get 0]).
Proof. reflexivity. Qed.
